(** * Workflow orchestration engine: a shallow embedding

    Sources embedded here:
    - the agents' core module (agent types, tasks, results and
      [AgentEventBus]), the second document of
      [src/app/api/workflows/route.ts]
    - [src/lib/agents/specialized/index.ts]: [SpecializedAgent] and its four
      subclasses
    - [src/lib/agents/workflow/index.ts]: [WorkflowOrchestratorAgent]

    Conventions.
    - Every [async] method is a function returning the settled state of its
      promise ([Resolved] or [Rejected]) together with the mutated objects.
      A listener body runs to completion before the next one starts (the
      engine is single threaded and no orchestrator method suspends between
      two writes to a workflow), so one method call is one transition.
    - [emit] is recorded in the log of the bus with the listeners it
      invoked. The bodies of those listeners are transitions of their own:
      the only listeners of what the orchestrator publishes are the
      handlers' [handleTask], which suspend in [execute] before they touch
      the bus again and never touch the workflow store.
    - [new Date()] reads [clock]; [uuidv4()] and [crypto.randomUUID()] draw
      the next element of [entropy].
    - A workflow object is reached only through the store entry it was
      fetched from; in-place writes are written back under that key.
    - Arrays of object references produced by [filter] are lists of
      positions in [workflow.steps], so that a write through such a
      reference lands in the workflow. *)

From stdpp Require Import gmap strings list pretty.

Local Open Scope string_scope.

(** ** The agents' core module *)

Module AgentType.
Inductive t := CUSTOMER_SERVICE | SCHEDULING | BILLING | DOCUMENT | WORKFLOW.

Definition value (a : t) : string :=
  match a with
  | CUSTOMER_SERVICE => "customer_service"
  | SCHEDULING => "scheduling"
  | BILLING => "billing"
  | DOCUMENT => "document"
  | WORKFLOW => "workflow"
  end.

(** [Object.values(AgentType)], in declaration order. *)
Definition values : list t :=
  [CUSTOMER_SERVICE; SCHEDULING; BILLING; DOCUMENT; WORKFLOW].

Definition code (a : t) : nat :=
  match a with
  | CUSTOMER_SERVICE => 0 | SCHEDULING => 1 | BILLING => 2
  | DOCUMENT => 3 | WORKFLOW => 4
  end.

Definition decode (n : nat) : option t := values !! n.

#[global] Instance eq_dec : EqDecision t.
Proof. solve_decision. Defined.

#[global] Instance countable : Countable t.
Proof. apply (inj_countable code decode). by intros []. Defined.
End AgentType.

Module AgentStatus.
Inductive t := IDLE | WORKING | ERROR | COMPLETED.
End AgentStatus.

(** Milliseconds since the epoch. *)
Definition Date := Z.

(** The values a [Record<string, any>] can hold. *)
#[warnings="-register-all"]
Inductive value :=
  | VUndefined
  | VString (s : string)
  | VNumber (z : Z)
  | VBoolean (b : bool)
  | VArray (xs : list value)
  | VObject (fields : gmap string value).

Abbreviation Bag := (gmap string value).

Module AgentTask.
Record t := Build {
  id : string;
  type : string;
  priority : Z;
  data : Bag;
  createdAt : Date;
  deadline : option Date;
}.
End AgentTask.

(** [AgentResult & { workflowId?: string; stepId?: string }]: the payload
    type of the result listener; a plain [AgentResult] has both
    correlation fields absent. *)
Module AgentResult.
Record t := Build {
  taskId : string;
  success : bool;
  data : Bag;
  error : option string;
  completedAt : Date;
  workflowId : option string;
  stepId : option string;
}.
End AgentResult.

(** What a [throw] carries: an [Error] with its message, or anything else. *)
Inductive Thrown :=
  | ErrorObject (message : string)
  | OtherValue.

(** Final state of the promise returned by an [async] method. *)
Inductive Settled (A : Type) :=
  | Resolved (a : A)
  | Rejected (e : Thrown).
Arguments Resolved {A} a.
Arguments Rejected {A} e.

(** [error instanceof Error ? error.message : 'Unknown error'] *)
Definition error_message (e : Thrown) : string :=
  match e with
  | ErrorObject m => m
  | OtherValue => "Unknown error"
  end.

(** [!s] for an optional string: [undefined] and the empty string are falsy. *)
Definition falsy (s : option string) : bool :=
  match s with
  | None => true
  | Some s => bool_decide (s = "")
  end.

(** The listeners this repository registers on the bus, each bound to the
    object ([owner] is its [id]) it was taken from. *)
Inductive Method :=
  | createWorkflow_m | startWorkflow_m | pauseWorkflow_m
  | resumeWorkflow_m | cancelWorkflow_m | handleTaskResult_m
  | handleTask_m.

Record Callback := { owner : string; method : Method }.

Inductive Payload :=
  | WorkflowRef (workflowId : string)
  | WorkflowOutcome (workflowId : string) (success : bool)
  | TaskPayload (task : AgentTask.t)
  | ResultPayload (result : AgentResult.t).

(** One call of [emit]: the event name, the payload, and the listeners the
    emitter invoked for it. *)
Record Emission := {
  topic : string;
  payload : Payload;
  delivered : list Callback;
}.

(** Process-wide state: the singleton bus (its listener table in
    registration order and the log of its emissions), the wall clock and
    the source of random identifiers. *)
Record World := {
  listeners : list (string * Callback);
  emitted : list Emission;
  clock : Date;
  entropy : nat → string;
  drawn : nat;
}.

Module AgentEventBus.
(** [EventEmitter.on]: append to the listener table. *)
Definition subscribeToEvent (eventName : string) (callback : Callback)
    (σ : World) : World :=
  {| listeners := listeners σ ++ [(eventName, callback)];
     emitted := emitted σ; clock := clock σ;
     entropy := entropy σ; drawn := drawn σ |}.

(** The listeners [EventEmitter.emit] calls for [eventName]: those
    registered under exactly that name, in registration order. *)
Definition listenersOf (eventName : string) (σ : World) : list Callback :=
  snd <$> filter (λ l, l.1 = eventName) (listeners σ).

(** [EventEmitter.emit]. *)
Definition publishEvent (eventName : string) (data : Payload)
    (σ : World) : World :=
  {| listeners := listeners σ;
     emitted := emitted σ ++
       [{| topic := eventName; payload := data;
           delivered := listenersOf eventName σ |}];
     clock := clock σ; entropy := entropy σ; drawn := drawn σ |}.
End AgentEventBus.
Import AgentEventBus.

(** [new Date()] *)
Definition now (σ : World) : Date := clock σ.

(** [uuidv4()] / [crypto.randomUUID()] *)
Definition uuidv4 (σ : World) : string * World :=
  (entropy σ (drawn σ),
   {| listeners := listeners σ; emitted := emitted σ; clock := clock σ;
      entropy := entropy σ; drawn := S (drawn σ) |}).

(** [s || uuidv4()] *)
Definition or_uuid (s : option string) (σ : World) : string * World :=
  if falsy s then uuidv4 σ else (default "" s, σ).

(** ** src/lib/agents/specialized/index.ts *)

Module SpecializedAgent.
Record t := Build {
  id : string;
  type : AgentType.t;
  status : AgentStatus.t;
  name : string;
  description : string;
  capabilities : list string;
}.

Definition with_status (s : AgentStatus.t) (a : t) : t :=
  Build (id a) (type a) s (name a) (description a) (capabilities a).

(** [initialize] *)
Definition initialize (a : t) (σ : World) : t * World :=
  (with_status AgentStatus.IDLE a,
   subscribeToEvent ("task:" +:+ AgentType.value (type a))
     {| owner := id a; method := handleTask_m |} σ).

(** [handleTask], over the abstract [execute] of the subclass. The bus
    has only [async] listeners, whose failures are rejections, so
    [publishEvent] itself never throws inside the [try] block. *)
Definition handleTask
    (execute : AgentTask.t → World → Settled AgentResult.t)
    (task : AgentTask.t) (a : t) (σ : World) : t * World :=
  let a := with_status AgentStatus.WORKING a in
  match execute task σ with
  | Resolved result =>
      let σ := publishEvent ("result:" +:+ AgentTask.id task)
                 (ResultPayload result) σ in
      let a := with_status AgentStatus.COMPLETED a in
      (with_status AgentStatus.IDLE a, σ)
  | Rejected error =>
      let a := with_status AgentStatus.ERROR a in
      let errorResult :=
        {| AgentResult.taskId := AgentTask.id task;
           AgentResult.success := false;
           AgentResult.data := ∅;
           AgentResult.error := Some (error_message error);
           AgentResult.completedAt := now σ;
           AgentResult.workflowId := None;
           AgentResult.stepId := None |} in
      let σ := publishEvent ("result:" +:+ AgentTask.id task)
                 (ResultPayload errorResult) σ in
      (with_status AgentStatus.IDLE a, σ)
  end.

(** The four concrete subclasses. *)
Inductive Class :=
  | CustomerServiceAgent | SchedulingAgent | BillingAgent | DocumentAgent.

Definition typeOf (c : Class) : AgentType.t :=
  match c with
  | CustomerServiceAgent => AgentType.CUSTOMER_SERVICE
  | SchedulingAgent => AgentType.SCHEDULING
  | BillingAgent => AgentType.BILLING
  | DocumentAgent => AgentType.DOCUMENT
  end.

Definition label (c : Class) : string :=
  match c with
  | CustomerServiceAgent => "customer service"
  | SchedulingAgent => "scheduling"
  | BillingAgent => "billing"
  | DocumentAgent => "document"
  end.

(** [execute] of each subclass: after its simulated delay it resolves
    with a successful result naming the task type. *)
Definition execute (c : Class) (task : AgentTask.t) (σ : World)
    : Settled AgentResult.t :=
  Resolved
    {| AgentResult.taskId := AgentTask.id task;
       AgentResult.success := true;
       AgentResult.data :=
         {[ "response" :=
              VString ("Processed " +:+ label c +:+ " task: "
                       +:+ AgentTask.type task) ]};
       AgentResult.error := None;
       AgentResult.completedAt := now σ;
       AgentResult.workflowId := None;
       AgentResult.stepId := None |}.

Definition capabilitiesOf (c : Class) : list string :=
  match c with
  | CustomerServiceAgent =>
      ["customer_inquiry_handling"; "complaint_resolution";
       "feedback_collection"; "customer_communication"]
  | SchedulingAgent =>
      ["appointment_scheduling"; "calendar_management";
       "availability_checking"; "reminder_sending"]
  | BillingAgent =>
      ["invoice_generation"; "payment_processing";
       "expense_tracking"; "financial_reporting"]
  | DocumentAgent =>
      ["document_generation"; "document_analysis";
       "template_management"; "document_storage"]
  end.

(** The [switch] of [createSpecializedAgent]. *)
Definition classOf (ty : AgentType.t) : option Class :=
  match ty with
  | AgentType.CUSTOMER_SERVICE => Some CustomerServiceAgent
  | AgentType.SCHEDULING => Some SchedulingAgent
  | AgentType.BILLING => Some BillingAgent
  | AgentType.DOCUMENT => Some DocumentAgent
  | AgentType.WORKFLOW => None
  end.
End SpecializedAgent.

(** [createSpecializedAgent(type, config)]; the [default] branch of its
    [switch] throws. *)
Definition createSpecializedAgent (ty : AgentType.t)
    (id name description : option string) (σ : World)
    : Settled SpecializedAgent.t * World :=
  let '(id, σ) := or_uuid id σ in
  let name :=
    if falsy name then AgentType.value ty +:+ " Agent" else default "" name in
  let description :=
    if falsy description
    then "Default " +:+ AgentType.value ty +:+ " agent"
    else default "" description in
  match SpecializedAgent.classOf ty with
  | Some c =>
      (Resolved (SpecializedAgent.Build id (SpecializedAgent.typeOf c)
                   AgentStatus.IDLE name description
                   (SpecializedAgent.capabilitiesOf c)), σ)
  | None =>
      (Rejected (ErrorObject ("Unsupported agent type: " +:+ AgentType.value ty)), σ)
  end.

(** ** src/lib/agents/workflow/index.ts *)

Module WorkflowStepStatus.
Inductive t := PENDING | IN_PROGRESS | COMPLETED | FAILED | SKIPPED.

#[global] Instance eq_dec : EqDecision t.
Proof. solve_decision. Defined.
End WorkflowStepStatus.

Module WorkflowStep.
Record t := Build {
  id : string;
  name : string;
  agentType : AgentType.t;
  action : string;
  status : WorkflowStepStatus.t;
  config : Bag;
  dependsOn : list string;
  result : option AgentResult.t;
}.

(** [step.status = s] *)
Definition with_status (s : WorkflowStepStatus.t) (x : t) : t :=
  Build (id x) (name x) (agentType x) (action x) s (config x)
        (dependsOn x) (result x).

(** [step.result = r] *)
Definition with_result (r : AgentResult.t) (x : t) : t :=
  Build (id x) (name x) (agentType x) (action x) (status x) (config x)
        (dependsOn x) (Some r).
End WorkflowStep.

(** ['active' | 'paused' | 'completed' | 'failed'] *)
Module WorkflowStatus.
Inductive t := active | paused | completed | failed.

#[global] Instance eq_dec : EqDecision t.
Proof. solve_decision. Defined.
End WorkflowStatus.

Module Workflow.
Record t := Build {
  id : string;
  name : string;
  description : string;
  steps : list WorkflowStep.t;
  data : Bag;
  status : WorkflowStatus.t;
  createdAt : Date;
  updatedAt : Date;
  completedAt : option Date;
}.

Definition with_status (s : WorkflowStatus.t) (w : t) : t :=
  Build (id w) (name w) (description w) (steps w) (data w) s
        (createdAt w) (updatedAt w) (completedAt w).

Definition with_updatedAt (d : Date) (w : t) : t :=
  Build (id w) (name w) (description w) (steps w) (data w) (status w)
        (createdAt w) d (completedAt w).

Definition with_completedAt (d : Date) (w : t) : t :=
  Build (id w) (name w) (description w) (steps w) (data w) (status w)
        (createdAt w) (updatedAt w) (Some d).

Definition with_steps (l : list WorkflowStep.t) (w : t) : t :=
  Build (id w) (name w) (description w) l (data w) (status w)
        (createdAt w) (updatedAt w) (completedAt w).

(** A write through the reference to the step at position [i]. *)
Definition update_step (f : WorkflowStep.t → WorkflowStep.t) (i : nat)
    (w : t) : t :=
  with_steps (alter f i (steps w)) w.
End Workflow.

(** The payload of [workflow:create]; absent members take the defaults the
    [||] operators of [createWorkflow] supply. *)
Module StepInput.
Record t := Build {
  id : option string;
  name : string;
  agentType : AgentType.t;
  action : string;
  config : option Bag;
  dependsOn : option (list string);
}.
End StepInput.

Module WorkflowInput.
Record t := Build {
  id : option string;
  name : string;
  description : string;
  steps : list StepInput.t;
  data : option Bag;
}.
End WorkflowInput.

(** [array.filter(p)] as the positions, counted from [n], of the elements
    it keeps: the references the resulting array holds. *)
Fixpoint filter_from {A} (p : A → bool) (n : nat) (l : list A) : list nat :=
  match l with
  | [] => []
  | x :: l => if p x then n :: filter_from p (S n) l else filter_from p (S n) l
  end.

Definition filter_refs {A} (p : A → bool) (l : list A) : list nat :=
  filter_from p 0 l.

Module WorkflowOrchestratorAgent.
Record t := Build {
  id : string;
  status : AgentStatus.t;
  name : string;
  description : string;
  capabilities : list string;
  activeWorkflows : gmap string Workflow.t;
  agents : gmap AgentType.t SpecializedAgent.t;
}.

Definition with_status (s : AgentStatus.t) (o : t) : t :=
  Build (id o) s (name o) (description o) (capabilities o)
        (activeWorkflows o) (agents o).

Definition with_agents (m : gmap AgentType.t SpecializedAgent.t) (o : t) : t :=
  Build (id o) (status o) (name o) (description o) (capabilities o)
        (activeWorkflows o) m.

(** [this.activeWorkflows.set(k, w)], and the write-back of a workflow
    object mutated through the reference fetched under [k]. *)
Definition store (k : string) (w : Workflow.t) (o : t) : t :=
  Build (id o) (status o) (name o) (description o) (capabilities o)
        (<[k := w]> (activeWorkflows o)) (agents o).

(** [constructor] *)
Definition new (id name description : string) : t :=
  Build id AgentStatus.IDLE name description
    ["workflow_orchestration"; "process_automation";
     "task_coordination"; "business_logic_execution"]
    ∅ ∅.

Definition bound (o : t) (m : Method) : Callback :=
  {| owner := id o; method := m |}.

(** [initialize]: one specialized agent per type other than [WORKFLOW],
    then the six subscriptions. *)
Definition initialize (o : t) (σ : World) : Settled () * t * World :=
  let loop :=
    foldl (λ (acc : Settled () * t * World) agentType,
             match acc with
             | (Rejected e, o, σ) => (Rejected e, o, σ)
             | (Resolved _, o, σ) =>
                 if bool_decide (agentType ≠ AgentType.WORKFLOW) then
                   match createSpecializedAgent agentType None
                           (Some (AgentType.value agentType +:+ " Agent"))
                           (Some ("Specialized " +:+ AgentType.value agentType
                                  +:+ " agent")) σ with
                   | (Rejected e, σ) => (Rejected e, o, σ)
                   | (Resolved agent, σ) =>
                       let '(agent, σ) := SpecializedAgent.initialize agent σ in
                       (Resolved (),
                        with_agents (<[agentType := agent]> (agents o)) o, σ)
                   end
                 else (Resolved (), o, σ)
             end)
          (Resolved (), o, σ) AgentType.values in
  match loop with
  | (Rejected e, o, σ) => (Rejected e, o, σ)
  | (Resolved _, o, σ) =>
      let σ := subscribeToEvent "workflow:create" (bound o createWorkflow_m) σ in
      let σ := subscribeToEvent "workflow:start" (bound o startWorkflow_m) σ in
      let σ := subscribeToEvent "workflow:pause" (bound o pauseWorkflow_m) σ in
      let σ := subscribeToEvent "workflow:resume" (bound o resumeWorkflow_m) σ in
      let σ := subscribeToEvent "workflow:cancel" (bound o cancelWorkflow_m) σ in
      let σ := subscribeToEvent "result:*" (bound o handleTaskResult_m) σ in
      (Resolved (), with_status AgentStatus.IDLE o, σ)
  end.

(** The [step => ({ ... })] callback of [createWorkflow]. *)
Definition createStep (step : StepInput.t) (σ : World)
    : WorkflowStep.t * World :=
  let '(sid, σ) := or_uuid (StepInput.id step) σ in
  (WorkflowStep.Build sid (StepInput.name step) (StepInput.agentType step)
     (StepInput.action step) WorkflowStepStatus.PENDING
     (default ∅ (StepInput.config step))
     (default [] (StepInput.dependsOn step)) None, σ).

(** [data.steps.map(...)], threading the identifier source. *)
Fixpoint createSteps (l : list StepInput.t) (σ : World)
    : list WorkflowStep.t * World :=
  match l with
  | [] => ([], σ)
  | step :: l =>
      let '(s, σ) := createStep step σ in
      let '(ss, σ) := createSteps l σ in
      (s :: ss, σ)
  end.

Definition createWorkflow (data : WorkflowInput.t) (o : t) (σ : World)
    : Settled () * t * World :=
  let '(wid, σ) := or_uuid (WorkflowInput.id data) σ in
  let '(steps, σ) := createSteps (WorkflowInput.steps data) σ in
  let workflow :=
    Workflow.Build wid (WorkflowInput.name data)
      (WorkflowInput.description data) steps
      (default ∅ (WorkflowInput.data data))
      WorkflowStatus.active (now σ) (now σ) None in
  let o := store (Workflow.id workflow) workflow o in
  (Resolved (), o,
   publishEvent "workflow:created" (WorkflowRef (Workflow.id workflow)) σ).

(** [areStepDependenciesMet] *)
Definition areStepDependenciesMet (workflow : Workflow.t)
    (step : WorkflowStep.t) : bool :=
  if bool_decide (length (WorkflowStep.dependsOn step) = 0) then true
  else
    forallb
      (λ dependencyId,
         match list_find (λ s, WorkflowStep.id s = dependencyId)
                 (Workflow.steps workflow) with
         | Some (_, dependencyStep) =>
             bool_decide (WorkflowStep.status dependencyStep
                          = WorkflowStepStatus.COMPLETED)
         | None => false
         end)
      (WorkflowStep.dependsOn step).

(** The task literal of [executeWorkflowStep]. *)
Definition buildTask (workflow : Workflow.t) (step : WorkflowStep.t)
    (id : string) (createdAt : Date) : AgentTask.t :=
  {| AgentTask.id := id;
     AgentTask.type := WorkflowStep.action step;
     AgentTask.priority := 1%Z;
     AgentTask.data :=
       <["workflowData" := VObject (Workflow.data workflow)]>
         (<["stepId" := VString (WorkflowStep.id step)]>
            (<["workflowId" := VString (Workflow.id workflow)]>
               (WorkflowStep.config step)));
     AgentTask.createdAt := createdAt;
     AgentTask.deadline := None |}.

(** [executeWorkflowStep(workflow, step)], [step] being the element at
    position [i] of [workflow.steps]. *)
Definition executeWorkflowStep (o : t) (workflow : Workflow.t) (i : nat)
    (σ : World) : Workflow.t * World :=
  match Workflow.steps workflow !! i with
  | None => (workflow, σ)
  | Some step =>
      if bool_decide (Workflow.status workflow ≠ WorkflowStatus.active) then
        (workflow, σ)
      else if negb (areStepDependenciesMet workflow step) then
        (workflow, σ)
      else
        let workflow :=
          Workflow.update_step
            (WorkflowStep.with_status WorkflowStepStatus.IN_PROGRESS) i workflow in
        match agents o !! WorkflowStep.agentType step with
        | None =>
            (Workflow.update_step
               (WorkflowStep.with_status WorkflowStepStatus.FAILED) i workflow, σ)
        | Some agent =>
            let '(tid, σ) := uuidv4 σ in
            let task := buildTask workflow step tid (now σ) in
            (workflow,
             publishEvent
               ("task:" +:+ AgentType.value (WorkflowStep.agentType step))
               (TaskPayload task) σ)
        end
  end.

(** [for (const step of refs) await this.executeWorkflowStep(workflow, step)] *)
Definition executeAll (o : t) (refs : list nat) (workflow : Workflow.t)
    (σ : World) : Workflow.t * World :=
  foldl (λ acc i, executeWorkflowStep o acc.1 i acc.2) (workflow, σ) refs.

Definition notFound (workflowId : string) : Thrown :=
  ErrorObject ("Workflow not found: " +:+ workflowId).

Definition startWorkflow (workflowId : string) (o : t) (σ : World)
    : Settled () * t * World :=
  match activeWorkflows o !! workflowId with
  | None => (Rejected (notFound workflowId), o, σ)
  | Some workflow =>
      let workflow := Workflow.with_status WorkflowStatus.active workflow in
      let workflow := Workflow.with_updatedAt (now σ) workflow in
      let initialSteps :=
        filter_refs
          (λ step, bool_decide (length (WorkflowStep.dependsOn step) = 0))
          (Workflow.steps workflow) in
      let '(workflow, σ) := executeAll o initialSteps workflow σ in
      (Resolved (), store workflowId workflow o, σ)
  end.

Definition pauseWorkflow (workflowId : string) (o : t) (σ : World)
    : Settled () * t * World :=
  match activeWorkflows o !! workflowId with
  | None => (Rejected (notFound workflowId), o, σ)
  | Some workflow =>
      let workflow := Workflow.with_status WorkflowStatus.paused workflow in
      let workflow := Workflow.with_updatedAt (now σ) workflow in
      (Resolved (), store workflowId workflow o, σ)
  end.

Definition resumeWorkflow (workflowId : string) (o : t) (σ : World)
    : Settled () * t * World :=
  match activeWorkflows o !! workflowId with
  | None => (Rejected (notFound workflowId), o, σ)
  | Some workflow =>
      let workflow := Workflow.with_status WorkflowStatus.active workflow in
      let workflow := Workflow.with_updatedAt (now σ) workflow in
      let pendingSteps :=
        filter_refs
          (λ step,
             bool_decide (WorkflowStep.status step = WorkflowStepStatus.PENDING)
             && areStepDependenciesMet workflow step)
          (Workflow.steps workflow) in
      let '(workflow, σ) := executeAll o pendingSteps workflow σ in
      (Resolved (), store workflowId workflow o, σ)
  end.

(** [workflow.steps.filter(p).forEach((step) => { step.status = s })] *)
Definition markAll (p : WorkflowStep.t → bool) (s : WorkflowStepStatus.t)
    (workflow : Workflow.t) : Workflow.t :=
  foldl (λ w i, Workflow.update_step (WorkflowStep.with_status s) i w)
    workflow (filter_refs p (Workflow.steps workflow)).

Definition cancelWorkflow (workflowId : string) (o : t) (σ : World)
    : Settled () * t * World :=
  match activeWorkflows o !! workflowId with
  | None => (Rejected (notFound workflowId), o, σ)
  | Some workflow =>
      let workflow := Workflow.with_status WorkflowStatus.failed workflow in
      let workflow := Workflow.with_updatedAt (now σ) workflow in
      let workflow := Workflow.with_completedAt (now σ) workflow in
      let workflow :=
        markAll
          (λ step, bool_decide (WorkflowStep.status step
                                = WorkflowStepStatus.IN_PROGRESS))
          WorkflowStepStatus.FAILED workflow in
      let workflow :=
        markAll
          (λ step, bool_decide (WorkflowStep.status step
                                = WorkflowStepStatus.PENDING))
          WorkflowStepStatus.SKIPPED workflow in
      (Resolved (), store workflowId workflow o,
       publishEvent "workflow:cancelled" (WorkflowRef (Workflow.id workflow)) σ)
  end.

(** The predicate of [allStepsCompleted]. *)
Definition settled (s : WorkflowStep.t) : bool :=
  bool_decide (WorkflowStep.status s = WorkflowStepStatus.COMPLETED)
  || bool_decide (WorkflowStep.status s = WorkflowStepStatus.FAILED)
  || bool_decide (WorkflowStep.status s = WorkflowStepStatus.SKIPPED).

(** The loop over [dependentSteps] in [handleTaskResult]. *)
Definition executeDependents (o : t) (refs : list nat)
    (workflow : Workflow.t) (σ : World) : Workflow.t * World :=
  foldl (λ acc j,
           match Workflow.steps acc.1 !! j with
           | Some dependentStep =>
               if areStepDependenciesMet acc.1 dependentStep
               then executeWorkflowStep o acc.1 j acc.2
               else acc
           | None => acc
           end)
    (workflow, σ) refs.

Definition handleTaskResult (result : AgentResult.t) (o : t) (σ : World)
    : Settled () * t * World :=
  if falsy (AgentResult.workflowId result) || falsy (AgentResult.stepId result)
  then (Resolved (), o, σ)
  else
    let workflowId := default "" (AgentResult.workflowId result) in
    let stepId := default "" (AgentResult.stepId result) in
    match activeWorkflows o !! workflowId with
    | None => (Resolved (), o, σ)
    | Some workflow =>
        match list_find (λ s, WorkflowStep.id s = stepId)
                (Workflow.steps workflow) with
        | None => (Resolved (), o, σ)
        | Some (i, step) =>
            let workflow :=
              Workflow.update_step
                (WorkflowStep.with_status
                   (if AgentResult.success result
                    then WorkflowStepStatus.COMPLETED
                    else WorkflowStepStatus.FAILED)) i workflow in
            let workflow :=
              Workflow.update_step (WorkflowStep.with_result result) i workflow in
            let '(workflow, σ) :=
              if AgentResult.success result then
                let dependentSteps :=
                  filter_refs
                    (λ s,
                       bool_decide (WorkflowStep.id step ∈ WorkflowStep.dependsOn s)
                       && bool_decide (WorkflowStep.status s
                                       = WorkflowStepStatus.PENDING))
                    (Workflow.steps workflow) in
                executeDependents o dependentSteps workflow σ
              else (workflow, σ) in
            let allStepsCompleted := forallb settled (Workflow.steps workflow) in
            if allStepsCompleted then
              let anyStepFailed :=
                existsb
                  (λ s, bool_decide (WorkflowStep.status s
                                     = WorkflowStepStatus.FAILED))
                  (Workflow.steps workflow) in
              let workflow :=
                Workflow.with_status
                  (if anyStepFailed then WorkflowStatus.failed
                   else WorkflowStatus.completed) workflow in
              let workflow := Workflow.with_completedAt (now σ) workflow in
              let workflow := Workflow.with_updatedAt (now σ) workflow in
              (Resolved (), store workflowId workflow o,
               publishEvent "workflow:completed"
                 (WorkflowOutcome (Workflow.id workflow) (negb anyStepFailed)) σ)
            else (Resolved (), store workflowId workflow o, σ)
        end
    end.
End WorkflowOrchestratorAgent.

Import WorkflowOrchestratorAgent.

(** ** The orchestrator as a transition system *)

(** The calls the bus (or a holder of the object) can make on an
    orchestrator: the five lifecycle listeners and the result listener. *)
Inductive Op :=
  | Create (data : WorkflowInput.t)
  | Start (workflowId : string)
  | Pause (workflowId : string)
  | Resume (workflowId : string)
  | Cancel (workflowId : string)
  | TaskResult (result : AgentResult.t).

Definition perform (op : Op) (o : WorkflowOrchestratorAgent.t) (σ : World)
    : Settled () * WorkflowOrchestratorAgent.t * World :=
  match op with
  | Create data => createWorkflow data o σ
  | Start workflowId => startWorkflow workflowId o σ
  | Pause workflowId => pauseWorkflow workflowId o σ
  | Resume workflowId => resumeWorkflow workflowId o σ
  | Cancel workflowId => cancelWorkflow workflowId o σ
  | TaskResult result => handleTaskResult result o σ
  end.

(** The orchestrators a program can hold: a freshly constructed one, and
    whatever [initialize] and the operations make of it, each call taking
    place in an arbitrary state of the rest of the process. *)
Inductive reachable : WorkflowOrchestratorAgent.t → Prop :=
  | reachable_new id name description :
      reachable (WorkflowOrchestratorAgent.new id name description)
  | reachable_initialize o σ :
      reachable o → reachable (initialize o σ).1.2
  | reachable_perform o op σ :
      reachable o → reachable (perform op o σ).1.2.

(** ** Vocabulary of the properties *)

(** Every identifier in [step.dependsOn] names a step of [workflow] whose
    status is completed. *)
Definition dependenciesCompleted (workflow : Workflow.t)
    (step : WorkflowStep.t) : Prop :=
  ∀ d, d ∈ WorkflowStep.dependsOn step →
    ∃ s, s ∈ Workflow.steps workflow ∧ WorkflowStep.id s = d ∧
         WorkflowStep.status s = WorkflowStepStatus.COMPLETED.

(** What [areStepDependenciesMet] reads of a workflow. *)
Definition completionView (workflow : Workflow.t) : list (string * bool) :=
  (λ s, (WorkflowStep.id s,
         bool_decide (WorkflowStep.status s = WorkflowStepStatus.COMPLETED)))
    <$> Workflow.steps workflow.

Definition terminal (s : WorkflowStatus.t) : Prop :=
  s = WorkflowStatus.completed ∨ s = WorkflowStatus.failed.

(** Half of the completion-stamp invariant: a completed or failed
    workflow carries a completion timestamp. *)
Definition stamped (workflow : Workflow.t) : Prop :=
  terminal (Workflow.status workflow) → is_Some (Workflow.completedAt workflow).

(** The task emissions appended to the log between two worlds. *)
Definition emittedSince (σ σ' : World) : list Emission :=
  drop (length (emitted σ)) (emitted σ').

Definition isTask (e : Emission) : bool :=
  match payload e with TaskPayload _ => true | _ => false end.

(** The step a dispatched task is correlated to: [task.data.stepId]. *)
Definition stepIdOf (e : Emission) : option string :=
  match payload e with
  | TaskPayload task =>
      match AgentTask.data task !! "stepId" with
      | Some (VString s) => Some s
      | _ => None
      end
  | _ => None
  end.


(** [cancelWorkflow]'s effect on one step. *)
Definition cancelledStep (s : WorkflowStep.t) : WorkflowStep.t :=
  match WorkflowStep.status s with
  | WorkflowStepStatus.IN_PROGRESS =>
      WorkflowStep.with_status WorkflowStepStatus.FAILED s
  | WorkflowStepStatus.PENDING =>
      WorkflowStep.with_status WorkflowStepStatus.SKIPPED s
  | _ => s
  end.

(** A result event [handleTaskResult] ignores. *)
Definition uncorrelated (result : AgentResult.t)
    (o : WorkflowOrchestratorAgent.t) : Prop :=
  falsy (AgentResult.workflowId result) = true
  ∨ falsy (AgentResult.stepId result) = true
  ∨ (∃ workflowId, AgentResult.workflowId result = Some workflowId ∧
       activeWorkflows o !! workflowId = None)
  ∨ (∃ workflowId stepId workflow,
       AgentResult.workflowId result = Some workflowId ∧
       AgentResult.stepId result = Some stepId ∧
       activeWorkflows o !! workflowId = Some workflow ∧
       ∀ s, s ∈ Workflow.steps workflow → WorkflowStep.id s ≠ stepId).

(** ** Notions used by the proofs *)

(** [areStepDependenciesMet] over what it reads. *)
Definition metIn (view : list (string * bool)) (dependsOn : list string) : bool :=
  if bool_decide (length dependsOn = 0) then true
  else
    forallb
      (λ dependencyId,
         match list_find (λ x : string * bool, x.1 = dependencyId) view with
         | Some (_, x) => x.2
         | None => false
         end)
      dependsOn.

(** A workflow that differs from another in step statuses only. *)
Definition retouched (w w' : Workflow.t) : Prop :=
  w' = Workflow.with_steps (Workflow.steps w') w ∧
  Forall2 (λ s s', s' = WorkflowStep.with_status (WorkflowStep.status s') s)
    (Workflow.steps w) (Workflow.steps w').

(** The task event [executeWorkflowStep] publishes for [step]. *)
Definition dispatch (workflow : Workflow.t) (step : WorkflowStep.t)
    (σ : World) : World :=
  publishEvent ("task:" +:+ AgentType.value (WorkflowStep.agentType step))
    (TaskPayload (buildTask workflow step (entropy σ (drawn σ)) (now σ)))
    (uuidv4 σ).2.

(** Every stored workflow that is completed or failed has its completion
    timestamp. *)
Definition completionStamped (o : WorkflowOrchestratorAgent.t) : Prop :=
  map_Forall (λ _ w, stamped w) (activeWorkflows o).

(** [result] names the stored workflow [workflow] and its step [step],
    the first one with that id, at position [i]. *)
Definition resolvesTo (result : AgentResult.t) (o : WorkflowOrchestratorAgent.t)
    (workflowId : string) (workflow : Workflow.t) (i : nat)
    (step : WorkflowStep.t) : Prop :=
  AgentResult.workflowId result = Some workflowId ∧ workflowId ≠ "" ∧
  AgentResult.stepId result = Some (WorkflowStep.id step) ∧
  WorkflowStep.id step ≠ "" ∧
  activeWorkflows o !! workflowId = Some workflow ∧
  list_find (λ s, WorkflowStep.id s = WorkflowStep.id step)
    (Workflow.steps workflow) = Some (i, step).

(** The status a result gives its step. *)
Definition verdict (result : AgentResult.t) : WorkflowStepStatus.t :=
  if AgentResult.success result then WorkflowStepStatus.COMPLETED
  else WorkflowStepStatus.FAILED.

(** The workflow once the result is written to the step at [i]. *)
Definition recorded (result : AgentResult.t) (i : nat) (w : Workflow.t)
    : Workflow.t :=
  Workflow.update_step (WorkflowStep.with_result result) i
    (Workflow.update_step (WorkflowStep.with_status (verdict result)) i w).

(** [dependentSteps] *)
Definition dependents (step : WorkflowStep.t) (w : Workflow.t) : list nat :=
  filter_refs
    (λ s, bool_decide (WorkflowStep.id step ∈ WorkflowStep.dependsOn s)
          && bool_decide (WorkflowStep.status s = WorkflowStepStatus.PENDING))
    (Workflow.steps w).

(** The fan-out after a result. *)
Definition fanOut (o : WorkflowOrchestratorAgent.t) (result : AgentResult.t)
    (step : WorkflowStep.t) (w : Workflow.t) (σ : World) : Workflow.t * World :=
  if AgentResult.success result then executeAll o (dependents step w) w σ
  else (w, σ).

Definition anyFailed (w : Workflow.t) : bool :=
  existsb (λ s, bool_decide (WorkflowStep.status s = WorkflowStepStatus.FAILED))
    (Workflow.steps w).

(** The workflow once all its steps are settled. *)
Definition concluded (σ : World) (w : Workflow.t) : Workflow.t :=
  Workflow.with_updatedAt (now σ)
    (Workflow.with_completedAt (now σ)
       (Workflow.with_status
          (if anyFailed w then WorkflowStatus.failed else WorkflowStatus.completed)
          w)).




(** ** Sample data *)

Module Sample.
Definition σ0 : World :=
  {| listeners := []; emitted := []; clock := 1000%Z;
     entropy := λ n, "uuid-" +:+ pretty n; drawn := 0 |}.

Definition fresh : WorkflowOrchestratorAgent.t :=
  WorkflowOrchestratorAgent.new "orch" "Workflow Orchestrator" "".

Definition booted : WorkflowOrchestratorAgent.t := (initialize fresh σ0).1.2.
Definition σ1 : World := (initialize fresh σ0).2.

Definition stepInput (id : string) (ty : AgentType.t) (deps : list string)
    : StepInput.t :=
  StepInput.Build (Some id) id ty "run" None (Some deps).

(** The onboarding definition of the end-to-end scenario, with one more
    step depending on [s1]. *)
Definition onboarding : WorkflowInput.t :=
  WorkflowInput.Build (Some "wf") "Onboarding" ""
    [stepInput "s1" AgentType.CUSTOMER_SERVICE [];
     stepInput "s2" AgentType.DOCUMENT ["s1"];
     stepInput "s3" AgentType.BILLING ["s1"]]
    None.

Definition created := perform (Create onboarding) booted σ1.
Definition started := perform (Start "wf") created.1.2 created.2.
Definition cancelled := perform (Cancel "wf") started.1.2 started.2.
Definition resumed := perform (Resume "wf") cancelled.1.2 cancelled.2.

Definition resultFor (stepId : string) (ok : bool) : AgentResult.t :=
  {| AgentResult.taskId := "uuid-4"; AgentResult.success := ok;
     AgentResult.data := ∅;
     AgentResult.error := if ok then None else Some "boom";
     AgentResult.completedAt := 2000%Z;
     AgentResult.workflowId := Some "wf";
     AgentResult.stepId := Some stepId |}.

Definition lateResult := perform (TaskResult (resultFor "s1" true))
                           cancelled.1.2 cancelled.2.

(** The first step succeeds while the workflow is running. *)
Definition advanced := perform (TaskResult (resultFor "s1" true))
                         started.1.2 started.2.



(** A one-step workflow run to completion, then sent a second, failed
    result for the same step. *)
Definition single : WorkflowInput.t :=
  WorkflowInput.Build (Some "wf") "Single" ""
    [stepInput "s1" AgentType.CUSTOMER_SERVICE []] None.

Definition singleCreated := perform (Create single) booted σ1.
Definition singleStarted :=
  perform (Start "wf") singleCreated.1.2 singleCreated.2.
Definition singleDone :=
  perform (TaskResult (resultFor "s1" true)) singleStarted.1.2 singleStarted.2.
Definition singleAgain :=
  perform (TaskResult (resultFor "s1" false)) singleDone.1.2 singleDone.2.

(** The step of [singleDone], as stored. *)
Definition doneStep : WorkflowStep.t :=
  WorkflowStep.Build "s1" "s1" AgentType.CUSTOMER_SERVICE "run"
    WorkflowStepStatus.COMPLETED ∅ [] (Some (resultFor "s1" true)).

Definition task1 : AgentTask.t :=
  {| AgentTask.id := "t1"; AgentTask.type := "greet";
     AgentTask.priority := 1%Z; AgentTask.data := ∅;
     AgentTask.createdAt := 1000%Z; AgentTask.deadline := None |}.

Definition statuses (r : Settled () * WorkflowOrchestratorAgent.t * World)
    (workflowId : string) : list WorkflowStepStatus.t :=
  match activeWorkflows r.1.2 !! workflowId with
  | Some w => WorkflowStep.status <$> Workflow.steps w
  | None => []
  end.

Definition statusOf (r : Settled () * WorkflowOrchestratorAgent.t * World)
    (workflowId : string) : option WorkflowStatus.t :=
  Workflow.status <$> activeWorkflows r.1.2 !! workflowId.
End Sample.
Import Sample.

(** ** The orchestrator's task interface

    [execute] and its three task handlers read the untyped [task.data].
    The readers below give those reads for payloads whose members, where
    present, have the types the handlers use them at; a payload of
    another shape is outside the embedding and makes the handler return
    [None]. *)

Module OrchestratorTasks.
(** An optional string member: absent or [undefined], or a string. *)
Definition readString (k : string) (data : Bag) : option (option string) :=
  match data !! k with
  | None | Some VUndefined => Some None
  | Some (VString s) => Some (Some s)
  | Some _ => None
  end.

(** A string member that has to be there. *)
Definition requireString (k : string) (data : Bag) : option string :=
  match data !! k with
  | Some (VString s) => Some s
  | _ => None
  end.

(** An optional object member. *)
Definition readObject (k : string) (data : Bag) : option (option Bag) :=
  match data !! k with
  | None | Some VUndefined => Some None
  | Some (VObject o) => Some (Some o)
  | Some _ => None
  end.

Definition asString (v : value) : option string :=
  match v with VString s => Some s | _ => None end.

(** An optional member that is an array of strings. *)
Definition readStrings (k : string) (data : Bag) : option (option (list string)) :=
  match data !! k with
  | None | Some VUndefined => Some None
  | Some (VArray xs) => Some <$> mapM asString xs
  | Some _ => None
  end.

(** A value of the enum [AgentType]. *)
Definition readAgentType (s : string) : option AgentType.t :=
  snd <$> list_find (λ t, AgentType.value t = s) AgentType.values.

(** One element of [data.steps]. *)
Definition readStep (v : value) : option StepInput.t :=
  match v with
  | VObject o =>
      id ← readString "id" o;
      name ← requireString "name" o;
      agentType ← requireString "agentType" o ≫= readAgentType;
      action ← requireString "action" o;
      config ← readObject "config" o;
      dependsOn ← readStrings "dependsOn" o;
      Some (StepInput.Build id name agentType action config dependsOn)
  | _ => None
  end.

(** The argument of [createWorkflow]. *)
Definition readDefinition (data : Bag) : option WorkflowInput.t :=
  id ← readString "id" data;
  name ← requireString "name" data;
  description ← requireString "description" data;
  steps ← match data !! "steps" with
          | Some (VArray xs) => mapM readStep xs
          | _ => None
          end;
  bag ← readObject "data" data;
  Some (WorkflowInput.Build id name description steps bag).

Definition succeeded (task : AgentTask.t) (workflowId : value)
    (message : string) (σ : World) : AgentResult.t :=
  {| AgentResult.taskId := AgentTask.id task;
     AgentResult.success := true;
     AgentResult.data :=
       <["message" := VString message]> (<["workflowId" := workflowId]> ∅);
     AgentResult.error := None;
     AgentResult.completedAt := now σ;
     AgentResult.workflowId := None;
     AgentResult.stepId := None |}.

(** [handleCreateWorkflow] *)
Definition handleCreateWorkflow (task : AgentTask.t)
    (o : WorkflowOrchestratorAgent.t) (σ : World)
    : option (Settled AgentResult.t * WorkflowOrchestratorAgent.t * World) :=
  definition ← readDefinition (AgentTask.data task);
  match createWorkflow definition o σ with
  | (Rejected e, o, σ) => Some (Rejected e, o, σ)
  | (Resolved _, o, σ) =>
      let '(workflowId, σ) := or_uuid (WorkflowInput.id definition) σ in
      Some (Resolved (succeeded task (VString workflowId)
                        "Workflow created successfully" σ), o, σ)
  end.

(** [handleExecuteWorkflow]; no workflow is stored under [undefined]. *)
Definition handleExecuteWorkflow (task : AgentTask.t)
    (o : WorkflowOrchestratorAgent.t) (σ : World)
    : option (Settled AgentResult.t * WorkflowOrchestratorAgent.t * World) :=
  workflowId ← readString "workflowId" (AgentTask.data task);
  match workflowId with
  | None => Some (Rejected (notFound "undefined"), o, σ)
  | Some workflowId =>
      match startWorkflow workflowId o σ with
      | (Rejected e, o, σ) => Some (Rejected e, o, σ)
      | (Resolved _, o, σ) =>
          Some (Resolved (succeeded task (VString workflowId)
                            "Workflow execution started" σ), o, σ)
      end
  end.

(** The three conditional assignments of [handleUpdateWorkflow]; the
    spread [{ ...workflow.data, ...task.data.data }] lets the update win. *)
Definition updated (name description : option string) (data : option Bag)
    (d : Date) (w : Workflow.t) : Workflow.t :=
  Workflow.Build (Workflow.id w)
    (if falsy name then Workflow.name w else default "" name)
    (if falsy description then Workflow.description w else default "" description)
    (Workflow.steps w)
    (match data with Some b => b ∪ Workflow.data w | None => Workflow.data w end)
    (Workflow.status w) (Workflow.createdAt w) d (Workflow.completedAt w).

(** [handleUpdateWorkflow] *)
Definition handleUpdateWorkflow (task : AgentTask.t)
    (o : WorkflowOrchestratorAgent.t) (σ : World)
    : option (Settled AgentResult.t * WorkflowOrchestratorAgent.t * World) :=
  workflowId ← readString "workflowId" (AgentTask.data task);
  match workflowId with
  | None => Some (Rejected (notFound "undefined"), o, σ)
  | Some workflowId =>
      match activeWorkflows o !! workflowId with
      | None => Some (Rejected (notFound workflowId), o, σ)
      | Some workflow =>
          name ← readString "name" (AgentTask.data task);
          description ← readString "description" (AgentTask.data task);
          data ← readObject "data" (AgentTask.data task);
          let workflow := updated name description data (now σ) workflow in
          Some (Resolved (succeeded task (VString (Workflow.id workflow))
                            "Workflow updated successfully" σ),
                store workflowId workflow o, σ)
      end
  end.

(** The result [execute] returns from its [catch] block. *)
Definition failed (task : AgentTask.t) (error : Thrown) (σ : World)
    : AgentResult.t :=
  {| AgentResult.taskId := AgentTask.id task;
     AgentResult.success := false;
     AgentResult.data := ∅;
     AgentResult.error := Some (error_message error);
     AgentResult.completedAt := now σ;
     AgentResult.workflowId := None;
     AgentResult.stepId := None |}.

(** [execute] *)
Definition execute (task : AgentTask.t) (o : WorkflowOrchestratorAgent.t)
    (σ : World) : option (AgentResult.t * WorkflowOrchestratorAgent.t * World) :=
  let o := WorkflowOrchestratorAgent.with_status AgentStatus.WORKING o in
  outcome ←
    (if bool_decide (AgentTask.type task = "create_workflow") then
       handleCreateWorkflow task o σ
     else if bool_decide (AgentTask.type task = "execute_workflow") then
       handleExecuteWorkflow task o σ
     else if bool_decide (AgentTask.type task = "update_workflow") then
       handleUpdateWorkflow task o σ
     else
       Some (Rejected (ErrorObject ("Unsupported task type: "
                                    +:+ AgentTask.type task)), o, σ));
  match outcome with
  | (Resolved result, o, σ) =>
      let o := WorkflowOrchestratorAgent.with_status AgentStatus.COMPLETED o in
      Some (result, WorkflowOrchestratorAgent.with_status AgentStatus.IDLE o, σ)
  | (Rejected error, o, σ) =>
      let o := WorkflowOrchestratorAgent.with_status AgentStatus.ERROR o in
      Some (failed task error σ,
            WorkflowOrchestratorAgent.with_status AgentStatus.IDLE o, σ)
  end.

(** [getStatus] *)
Definition getStatus (o : WorkflowOrchestratorAgent.t) : AgentStatus.t :=
  WorkflowOrchestratorAgent.status o.

End OrchestratorTasks.

(** ** Notions used by the further properties *)

(** Two records of one step: everything but status and result agrees. *)
Definition sameStep (s s' : WorkflowStep.t) : Prop :=
  WorkflowStep.id s' = WorkflowStep.id s
  ∧ WorkflowStep.name s' = WorkflowStep.name s
  ∧ WorkflowStep.agentType s' = WorkflowStep.agentType s
  ∧ WorkflowStep.action s' = WorkflowStep.action s
  ∧ WorkflowStep.config s' = WorkflowStep.config s
  ∧ WorkflowStep.dependsOn s' = WorkflowStep.dependsOn s.

(** Two records of one workflow: the definition agrees (identifier, name,
    description, data, creation time, and the steps one by one); statuses,
    results and the other timestamps may differ. *)
Definition evolved (w w' : Workflow.t) : Prop :=
  Workflow.id w' = Workflow.id w
  ∧ Workflow.name w' = Workflow.name w
  ∧ Workflow.description w' = Workflow.description w
  ∧ Workflow.data w' = Workflow.data w
  ∧ Workflow.createdAt w' = Workflow.createdAt w
  ∧ Forall2 sameStep (Workflow.steps w) (Workflow.steps w').

(** The process after an orchestrator method ran: the listener table, the
    clock and the identifier source are the same, identifiers were only
    drawn and emissions only appended. *)
Definition extends (σ σ' : World) : Prop :=
  listeners σ' = listeners σ
  ∧ clock σ' = clock σ
  ∧ entropy σ' = entropy σ
  ∧ (drawn σ ≤ drawn σ')%nat
  ∧ ∃ l, emitted σ' = (emitted σ ++ l)%list.

(** Some identifier in [step.dependsOn] names no step of [workflow]. *)
Definition dangling (workflow : Workflow.t) (step : WorkflowStep.t) : Prop :=
  ∃ d, d ∈ WorkflowStep.dependsOn step
       ∧ ∀ s, s ∈ Workflow.steps workflow → WorkflowStep.id s ≠ d.

(** No step is pending or in progress, and a completed workflow has no
    failed step. *)
Definition quiescent (w : Workflow.t) : Prop :=
  forallb settled (Workflow.steps w) = true
  ∧ (Workflow.status w = WorkflowStatus.completed → anyFailed w = false).



(** ** More sample data *)

Module Scenario.
(** A definition whose second step depends on an identifier no step has. *)
Definition orphaned : WorkflowInput.t :=
  WorkflowInput.Build (Some "orphan") "Orphaned" ""
    [stepInput "a" AgentType.CUSTOMER_SERVICE [];
     stepInput "b" AgentType.BILLING ["ghost"]]
    None.

Definition orphanCreated := perform (Create orphaned) booted σ1.
Definition orphanStarted :=
  perform (Start "orphan") orphanCreated.1.2 orphanCreated.2.
Definition orphanAdvanced :=
  perform (TaskResult
             {| AgentResult.taskId := "uuid-4"; AgentResult.success := true;
                AgentResult.data := ∅; AgentResult.error := None;
                AgentResult.completedAt := 2000%Z;
                AgentResult.workflowId := Some "orphan";
                AgentResult.stepId := Some "a" |})
    orphanStarted.1.2 orphanStarted.2.

(** The first step of the onboarding workflow while it runs. *)
Definition runningStep : WorkflowStep.t :=
  WorkflowStep.Build "s1" "s1" AgentType.CUSTOMER_SERVICE "run"
    WorkflowStepStatus.IN_PROGRESS ∅ [] None.

(** The onboarding workflow, paused while its first step is running. *)
Definition paused := perform (Pause "wf") started.1.2 started.2.
Definition pausedResult :=
  perform (TaskResult (resultFor "s1" true)) paused.1.2 paused.2.
Definition pausedResumed :=
  perform (Resume "wf") pausedResult.1.2 pausedResult.2.


(** A definition whose two steps carry the same identifier. *)
Definition twins : WorkflowInput.t :=
  WorkflowInput.Build (Some "wf") "Twins" ""
    [stepInput "s1" AgentType.CUSTOMER_SERVICE [];
     stepInput "s1" AgentType.BILLING []]
    None.

Definition twinsCreated := perform (Create twins) booted σ1.
Definition twinsStarted :=
  perform (Start "wf") twinsCreated.1.2 twinsCreated.2.
End Scenario.
Import Scenario.


(** The [workflow:completed] emission of [handleTaskResult]. *)
Definition completionNotice (σ : World) (w : Workflow.t) : Emission :=
  {| topic := "workflow:completed";
     payload := WorkflowOutcome (Workflow.id w) (negb (anyFailed w));
     delivered := listenersOf "workflow:completed" σ |}.

(** What [createWorkflow] makes of one step of its input. *)
Definition createdFrom (d : StepInput.t) (s : WorkflowStep.t) : Prop :=
  WorkflowStep.name s = StepInput.name d
  ∧ WorkflowStep.agentType s = StepInput.agentType d
  ∧ WorkflowStep.action s = StepInput.action d
  ∧ WorkflowStep.status s = WorkflowStepStatus.PENDING
  ∧ WorkflowStep.config s = default ∅ (StepInput.config d)
  ∧ WorkflowStep.dependsOn s = default [] (StepInput.dependsOn d)
  ∧ WorkflowStep.result s = None
  ∧ (falsy (StepInput.id d) = false → StepInput.id d = Some (WorkflowStep.id s)).

(** The identifiers [createWorkflow] has to draw for an input. *)
Definition missingIds (data : WorkflowInput.t) : nat :=
  ((if falsy (WorkflowInput.id data) then 1 else 0)
   + length (List.filter (λ d, falsy (StepInput.id d)) (WorkflowInput.steps data)))%nat.

(** The agent [initialize] creates for a class, once initialized. *)
Definition initialAgent (c : SpecializedAgent.Class) (id : string)
    : SpecializedAgent.t :=
  SpecializedAgent.Build id (SpecializedAgent.typeOf c) AgentStatus.IDLE
    (AgentType.value (SpecializedAgent.typeOf c) +:+ " Agent")
    ("Specialized " +:+ AgentType.value (SpecializedAgent.typeOf c) +:+ " agent")
    (SpecializedAgent.capabilitiesOf c).

(** Tasks for the orchestrator's own task interface. *)
Module Requests.
Definition request (id type : string) (data : Bag) : AgentTask.t :=
  {| AgentTask.id := id; AgentTask.type := type; AgentTask.priority := 1%Z;
     AgentTask.data := data; AgentTask.createdAt := 1000%Z;
     AgentTask.deadline := None |}.

(** A definition without identifiers: one step. *)
Definition anonymous : Bag :=
  <["name" := VString "Anonymous"]>
    (<["description" := VString ""]>
       (<["steps" :=
            VArray [VObject (<["name" := VString "first"]>
                               (<["agentType" := VString "billing"]>
                                  (<["action" := VString "run"]> ∅)))]]> ∅)).

Definition createRequest : AgentTask.t := request "t-create" "create_workflow" anonymous.

Definition startRequest : AgentTask.t :=
  request "t-start" "execute_workflow" (<["workflowId" := VString "wf"]> ∅).

Definition unknownRequest : AgentTask.t :=
  request "t-unknown" "execute_workflow" (<["workflowId" := VString "nope"]> ∅).

Definition renameRequest : AgentTask.t :=
  request "t-update" "update_workflow"
    (<["workflowId" := VString "wf"]>
       (<["name" := VString "Renamed"]>
          (<["data" := VObject (<["tier" := VString "gold"]> ∅)]> ∅))).
End Requests.
Import Requests.

(** The parts of a workflow [handleUpdateWorkflow] does not write. *)
Definition evolved_steps_kept (w w' : Workflow.t) : Prop :=
  Workflow.id w' = Workflow.id w
  ∧ Workflow.steps w' = Workflow.steps w
  ∧ Workflow.status w' = Workflow.status w
  ∧ Workflow.createdAt w' = Workflow.createdAt w
  ∧ Workflow.completedAt w' = Workflow.completedAt w.

(** The event names [initialize] subscribes the orchestrator's own
    methods to. *)
Definition subscriptions : list (string * Method) :=
  [("workflow:create", createWorkflow_m); ("workflow:start", startWorkflow_m);
   ("workflow:pause", pauseWorkflow_m); ("workflow:resume", resumeWorkflow_m);
   ("workflow:cancel", cancelWorkflow_m); ("result:*", handleTaskResult_m)].

(** The task topics of the four handler types. *)
Definition taskTopics : list string :=
  (λ c, "task:" +:+ AgentType.value (SpecializedAgent.typeOf c))
    <$> [SpecializedAgent.CustomerServiceAgent; SpecializedAgent.SchedulingAgent;
         SpecializedAgent.BillingAgent; SpecializedAgent.DocumentAgent].

(** [areStepDependenciesMet] holds. *)
Definition dependenciesMetNow (workflow : Workflow.t)
    (step : WorkflowStep.t) : Prop :=
  areStepDependenciesMet workflow step = true.

(** * Properties *)

(** ** References into [workflow.steps] *)

Local Open Scope list_scope.
Local Open Scope nat_scope.

Section refs.
Context {A : Type}.
Implicit Types (p : A → bool) (f : A → A) (l pre suf : list A).

Lemma filter_from_elem p n l i :
  i ∈ filter_from p n l ↔ ∃ x, n ≤ i ∧ l !! (i - n) = Some x ∧ p x = true.
Proof.
  revert n. induction l as [|y l IH]; intros n; simpl.
  - split; [by intros ?%elem_of_nil | by intros (? & _ & ? & _)].
  - assert (i ∈ filter_from p (S n) l ↔
            ∃ x, n ≤ i ∧ i ≠ n ∧ (y :: l) !! (i - n) = Some x ∧ p x = true) as Htl.
    { rewrite IH. split.
      - intros (x & Hle & Hx & Hp). exists x. split_and!; [lia | lia | | done].
        replace (i - n) with (S (i - S n)) by lia. done.
      - intros (x & Hle & Hne & Hx & Hp). exists x. split_and!; [lia | | done].
        replace (i - n) with (S (i - S n)) in Hx by lia. done. }
    destruct (p y) eqn:Hy.
    + rewrite elem_of_cons, Htl. split.
      * intros [-> | (x & ? & ? & ? & ?)]; [|by eauto].
        exists y. by rewrite Nat.sub_diag.
      * intros (x & Hle & Hx & Hp). destruct (decide (i = n)) as [->|]; eauto 10.
    + rewrite Htl. split; [intros (x & ? & ? & ? & ?); by eauto|].
      intros (x & Hle & Hx & Hp). exists x. split_and!; [done | | done | done].
      intros ->. rewrite Nat.sub_diag in Hx. simpl in Hx. congruence.
Qed.

Lemma filter_refs_elem p l i :
  i ∈ filter_refs p l ↔ ∃ x, l !! i = Some x ∧ p x = true.
Proof.
  unfold filter_refs. rewrite filter_from_elem. rewrite Nat.sub_0_r.
  split; [intros (x & _ & ? & ?) | intros (x & ? & ?)]; exists x; auto with lia.
Qed.

Lemma filter_from_none p n l :
  (∀ x, x ∈ l → p x = false) → filter_from p n l = [].
Proof.
  revert n. induction l as [|y l IH]; intros n Hall; [done|]. simpl.
  rewrite (Hall y) by left. apply IH. intros x Hx. apply Hall. by right.
Qed.

(** Writing [f] through every reference [filter] returned rewrites
    exactly the elements that satisfied the predicate. *)
Lemma alter_filter_from p f suf pre :
  foldl (λ acc i, alter f i acc) (pre ++ suf) (filter_from p (length pre) suf)
  = pre ++ ((λ x, if p x then f x else x) <$> suf).
Proof.
  revert pre. induction suf as [|y suf IH]; intros pre; [done|]. simpl.
  assert (∀ z, pre ++ z :: suf = (pre ++ [z]) ++ suf) as Hassoc
    by (intros z; by rewrite <- app_assoc).
  assert (S (length pre) = length (pre ++ [y])) as Hlen
    by (rewrite length_app; simpl; lia).
  destruct (p y) eqn:Hy; simpl.
  - assert (alter f (length pre) (pre ++ y :: suf) = pre ++ f y :: suf) as ->.
    { rewrite alter_app_r_alt by done. by rewrite Nat.sub_diag. }
    rewrite (Hassoc (f y)).
    replace (S (length pre)) with (length (pre ++ [f y]))
      by (rewrite length_app; simpl; lia).
    rewrite IH. by rewrite <- app_assoc.
  - rewrite (Hassoc y), Hlen, IH. by rewrite <- app_assoc.
Qed.

(** A write that a projection cannot see. *)
Lemma fmap_alter_unseen {B} (h : A → B) f l i :
  (∀ x, l !! i = Some x → h (f x) = h x) → h <$> alter f i l = h <$> l.
Proof.
  intros Hi. apply list_eq. intros j. rewrite !list_lookup_fmap.
  destruct (decide (i = j)) as [->|Hne].
  - rewrite list_lookup_alter_eq. destruct (l !! j) as [x|] eqn:Hj; [|done].
    simpl. f_equal. by apply Hi.
  - by rewrite list_lookup_alter_ne.
Qed.

Lemma alter_filter_refs p f l :
  foldl (λ acc i, alter f i acc) l (filter_refs p l)
  = (λ x, if p x then f x else x) <$> l.
Proof. apply (alter_filter_from p f l []). Qed.
End refs.

(** ** Dependency checks *)

Lemma areStepDependenciesMet_view workflow step :
  areStepDependenciesMet workflow step
  = metIn (completionView workflow) (WorkflowStep.dependsOn step).
Proof.
  unfold areStepDependenciesMet, metIn, completionView.
  case_bool_decide as Hlen; [done|]. clear Hlen.
  induction (WorkflowStep.dependsOn step) as [|d ds IH]; [done|]. simpl.
  rewrite IH. f_equal.
  rewrite list_find_fmap. unfold compose; simpl.
  by destruct (list_find _ (Workflow.steps workflow)) as [[j s]|].
Qed.

Lemma areStepDependenciesMet_same w w' s s' :
  completionView w = completionView w' →
  WorkflowStep.dependsOn s = WorkflowStep.dependsOn s' →
  areStepDependenciesMet w s = areStepDependenciesMet w' s'.
Proof. intros Hv Hd. rewrite !areStepDependenciesMet_view. by rewrite Hv, Hd. Qed.

Lemma areStepDependenciesMet_sound workflow step :
  areStepDependenciesMet workflow step = true →
  dependenciesCompleted workflow step.
Proof.
  unfold areStepDependenciesMet, dependenciesCompleted.
  case_bool_decide as Hlen.
  - intros _ d Hd. destruct (WorkflowStep.dependsOn step); [|done].
    by apply elem_of_nil in Hd.
  - rewrite forallb_forall. intros Hall d Hd.
    apply list_elem_of_In, Hall in Hd.
    destruct (list_find _ _) as [[j s]|] eqn:Hfind; [|done].
    apply list_find_Some in Hfind as (Hj & Hid & _).
    apply bool_decide_eq_true in Hd.
    exists s. split_and!; [|done|done].
    apply list_elem_of_lookup. eauto.
Qed.

Lemma areStepDependenciesMet_nodeps workflow step :
  WorkflowStep.dependsOn step = [] → areStepDependenciesMet workflow step = true.
Proof. intros Hd. unfold areStepDependenciesMet. by rewrite Hd. Qed.

(** ** One dispatch *)

Lemma retouched_refl w : retouched w w.
Proof.
  split; [by destruct w|].
  apply Forall_Forall2_diag, Forall_forall. by intros [].
Qed.

Lemma retouched_trans w1 w2 w3 :
  retouched w1 w2 → retouched w2 w3 → retouched w1 w3.
Proof.
  intros [E12 F12] [E23 F23]. split.
  - rewrite E23 at 1. rewrite E12. done.
  - eapply Forall2_trans; [|done..].
    intros [] [] []; unfold WorkflowStep.with_status; simpl; congruence.
Qed.

Lemma retouched_update_step st i w :
  retouched w (Workflow.update_step (WorkflowStep.with_status st) i w).
Proof.
  split; [done|]. simpl.
  generalize (Workflow.steps w). intros l. revert i.
  induction l as [|s l IH]; intros [|i]; simpl; constructor;
    try done; try (by destruct s); try apply IH.
  - apply Forall_Forall2_diag, Forall_forall. by intros [].
Qed.

Lemma retouched_status w w' :
  retouched w w' → Workflow.status w' = Workflow.status w.
Proof. by intros [-> _]. Qed.

Lemma retouched_completedAt w w' :
  retouched w w' → Workflow.completedAt w' = Workflow.completedAt w.
Proof. by intros [-> _]. Qed.

Lemma retouched_id w w' : retouched w w' → Workflow.id w' = Workflow.id w.
Proof. by intros [-> _]. Qed.

Lemma retouched_lookup w w' i s' :
  retouched w w' → Workflow.steps w' !! i = Some s' →
  ∃ s, Workflow.steps w !! i = Some s ∧
       s' = WorkflowStep.with_status (WorkflowStep.status s') s.
Proof.
  intros [_ F] Hi. destruct (Forall2_lookup_r _ _ _ _ _ F Hi) as (s & ? & ?). eauto.
Qed.

Lemma retouched_stamped w w' : retouched w w' → stamped w → stamped w'.
Proof.
  intros R. unfold stamped.
  by rewrite (retouched_status _ _ R), (retouched_completedAt _ _ R).
Qed.

Section dispatch.
Context (o : WorkflowOrchestratorAgent.t).

(** The three outcomes of [executeWorkflowStep]: nothing happens; the
    step fails for want of a handler; the step is dispatched. The last
    two require an active workflow and met dependencies. *)
Lemma executeWorkflowStep_cases w i σ :
  executeWorkflowStep o w i σ = (w, σ)
  ∨ ∃ step,
      Workflow.steps w !! i = Some step ∧
      Workflow.status w = WorkflowStatus.active ∧
      areStepDependenciesMet w step = true ∧
      ((agents o !! WorkflowStep.agentType step = None ∧
        executeWorkflowStep o w i σ
        = (Workflow.update_step
             (WorkflowStep.with_status WorkflowStepStatus.FAILED) i w, σ))
       ∨ (is_Some (agents o !! WorkflowStep.agentType step) ∧
          executeWorkflowStep o w i σ
          = (Workflow.update_step
               (WorkflowStep.with_status WorkflowStepStatus.IN_PROGRESS) i w,
             dispatch w step σ))).
Proof.
  unfold executeWorkflowStep.
  destruct (Workflow.steps w !! i) as [step|] eqn:Hi; [|by left].
  case_bool_decide as Hst; [by left|].
  destruct (areStepDependenciesMet w step) eqn:Hmet; [|by left]. simpl.
  right. exists step. split_and!; [done| |done|].
  { by destruct (decide (Workflow.status w = WorkflowStatus.active)). }
  destruct (agents o !! WorkflowStep.agentType step) as [agent|] eqn:Hag.
  - right. split; [by eexists|]. done.
  - left. split; [done|]. f_equal.
    unfold Workflow.update_step, Workflow.with_steps. simpl. f_equal.
    rewrite list_alter_alter_eq. by apply list_alter_ext.
Qed.

Lemma executeWorkflowStep_retouched w i σ :
  retouched w (executeWorkflowStep o w i σ).1.
Proof.
  destruct (executeWorkflowStep_cases w i σ)
    as [-> | (step & _ & _ & _ & [[_ ->] | [_ ->]])];
    simpl; auto using retouched_refl, retouched_update_step.
Qed.

Lemma executeWorkflowStep_other w i σ j :
  j ≠ i →
  Workflow.steps (executeWorkflowStep o w i σ).1 !! j = Workflow.steps w !! j.
Proof.
  intros Hne.
  destruct (executeWorkflowStep_cases w i σ)
    as [-> | (step & _ & _ & _ & [[_ ->] | [_ ->]])];
    simpl; [done|..]; by apply list_lookup_alter_ne.
Qed.

(** A dispatch at a position that does not hold a completed step leaves
    the completion view as it was. *)
Lemma executeWorkflowStep_view w i σ :
  (∀ s, Workflow.steps w !! i = Some s →
        WorkflowStep.status s ≠ WorkflowStepStatus.COMPLETED) →
  completionView (executeWorkflowStep o w i σ).1 = completionView w.
Proof.
  intros Hi. unfold completionView.
  destruct (executeWorkflowStep_cases w i σ)
    as [-> | (step & Hstep & _ & _ & [[_ ->] | [_ ->]])];
    simpl; [done|..];
    apply fmap_alter_unseen; intros s Hs; simpl; f_equal;
    by rewrite (bool_decide_eq_false_2 _ (Hi s Hs)).
Qed.

(** The dependency guard: a step is put in progress by a dispatch only
    if its dependencies were met when the dispatch ran. *)
Lemma executeWorkflowStep_guard w i σ j s s' :
  Workflow.steps w !! j = Some s →
  Workflow.steps (executeWorkflowStep o w i σ).1 !! j = Some s' →
  WorkflowStep.status s ≠ WorkflowStepStatus.IN_PROGRESS →
  WorkflowStep.status s' = WorkflowStepStatus.IN_PROGRESS →
  areStepDependenciesMet w s = true.
Proof.
  intros Hs Hs' Hbefore Hafter.
  destruct (decide (j = i)) as [->|Hne].
  - destruct (executeWorkflowStep_cases w i σ)
      as [E | (step & Hstep & _ & Hmet & _)].
    + rewrite E in Hs'. simpl in Hs'. congruence.
    + congruence.
  - rewrite executeWorkflowStep_other in Hs' by done. congruence.
Qed.

Lemma executeWorkflowStep_listeners w i σ :
  listeners (executeWorkflowStep o w i σ).2 = listeners σ.
Proof.
  destruct (executeWorkflowStep_cases w i σ)
    as [-> | (step & _ & _ & _ & [[_ ->] | [_ ->]])]; done.
Qed.
End dispatch.

(** ** Dispatch loops *)

Section loops.
Context (o : WorkflowOrchestratorAgent.t).

Lemma executeAll_nil w σ : executeAll o [] w σ = (w, σ).
Proof. done. Qed.

Lemma executeAll_cons i refs w σ :
  executeAll o (i :: refs) w σ
  = executeAll o refs (executeWorkflowStep o w i σ).1
                      (executeWorkflowStep o w i σ).2.
Proof.
  unfold executeAll. simpl. by destruct (executeWorkflowStep o w i σ).
Qed.

(** The guard in front of [executeWorkflowStep] in the fan-out loop
    repeats the callee's own check. *)
Lemma executeDependents_executeAll refs w σ :
  executeDependents o refs w σ = executeAll o refs w σ.
Proof.
  unfold executeDependents, executeAll.
  generalize (w, σ). induction refs as [|j refs IH]; intros acc; [done|].
  simpl. rewrite <- IH. f_equal.
  destruct (Workflow.steps acc.1 !! j) as [s|] eqn:Hj.
  - destruct (areStepDependenciesMet acc.1 s) eqn:Hmet; [done|].
    unfold executeWorkflowStep. rewrite Hj, Hmet. simpl.
    case_bool_decide; by destruct acc.
  - unfold executeWorkflowStep. rewrite Hj. by destruct acc.
Qed.

Lemma executeAll_retouched refs w σ :
  retouched w (executeAll o refs w σ).1.
Proof.
  revert w σ. induction refs as [|i refs IH]; intros w σ.
  - apply retouched_refl.
  - rewrite executeAll_cons.
    eauto using retouched_trans, executeWorkflowStep_retouched.
Qed.

Lemma executeAll_listeners refs w σ :
  listeners (executeAll o refs w σ).2 = listeners σ.
Proof.
  revert w σ. induction refs as [|i refs IH]; intros w σ; [done|].
  by rewrite executeAll_cons, IH, executeWorkflowStep_listeners.
Qed.

(** Steps no reference points to are left alone. *)
Lemma executeAll_other refs w σ j :
  j ∉ refs →
  Workflow.steps (executeAll o refs w σ).1 !! j = Workflow.steps w !! j.
Proof.
  revert w σ. induction refs as [|i refs IH]; intros w σ Hj; [done|].
  apply not_elem_of_cons in Hj as [Hne Hj].
  by rewrite executeAll_cons, IH, executeWorkflowStep_other.
Qed.

(** When none of the references points to a completed step, the loop
    keeps the completion view, and whatever it puts in progress had its
    dependencies met in a view equal to the final one. *)
Lemma executeAll_guard refs w σ :
  (∀ j s, j ∈ refs → Workflow.steps w !! j = Some s →
          WorkflowStep.status s ≠ WorkflowStepStatus.COMPLETED) →
  completionView (executeAll o refs w σ).1 = completionView w
  ∧ ∀ j s s',
      Workflow.steps w !! j = Some s →
      Workflow.steps (executeAll o refs w σ).1 !! j = Some s' →
      WorkflowStep.status s ≠ WorkflowStepStatus.IN_PROGRESS →
      WorkflowStep.status s' = WorkflowStepStatus.IN_PROGRESS →
      areStepDependenciesMet w s = true.
Proof.
  revert w σ. induction refs as [|i refs IH]; intros w σ Hrefs.
  - split; [done|]. simpl. intros j s s' ? ? ? ?. congruence.
  - rewrite executeAll_cons.
    set (w1 := (executeWorkflowStep o w i σ).1).
    set (σ1 := (executeWorkflowStep o w i σ).2).
    assert (completionView w1 = completionView w) as Hview.
    { apply executeWorkflowStep_view. intros s. apply Hrefs. by left. }
    assert (retouched w w1) as Hre by apply executeWorkflowStep_retouched.
    destruct (IH w1 σ1) as [Hview' Hguard].
    { intros j s1 Hj Hs1.
      destruct (retouched_lookup _ _ _ _ Hre Hs1) as (s & Hs & _).
      assert ((completionView w1 !! j) = (completionView w !! j)) as Hvj
        by by rewrite Hview.
      unfold completionView in Hvj. rewrite !list_lookup_fmap, Hs1, Hs in Hvj.
      simpl in Hvj. injection Hvj as _ Hvj.
      intros Hc. apply (Hrefs j s); [by right | done |].
      rewrite (bool_decide_eq_true_2 _ Hc) in Hvj. symmetry in Hvj.
      by apply bool_decide_eq_true in Hvj. }
    split; [by rewrite Hview'|].
    intros j s s' Hs Hs' Hbefore Hafter.
    destruct (Workflow.steps w1 !! j) as [s1|] eqn:Hs1.
    2:{ destruct (retouched_lookup _ _ _ _ (executeAll_retouched refs w1 σ1) Hs')
          as (? & ? & _). congruence. }
    destruct (decide (WorkflowStep.status s1 = WorkflowStepStatus.IN_PROGRESS)).
    + by eapply executeWorkflowStep_guard.
    + rewrite <- (Hguard j s1 s' Hs1 Hs'); [|done..].
      apply areStepDependenciesMet_same; [done|].
      destruct (retouched_lookup _ _ _ _ Hre Hs1) as (s0 & Hs0 & ->).
      simpl. congruence.
Qed.

Lemma foldl_update_step f refs w :
  foldl (λ w i, Workflow.update_step f i w) w refs
  = Workflow.with_steps
      (foldl (λ l i, alter f i l) (Workflow.steps w) refs) w.
Proof.
  revert w. induction refs as [|i refs IH]; intros w; simpl.
  - by destruct w.
  - by rewrite IH.
Qed.

Lemma markAll_fmap p st w :
  markAll p st w
  = Workflow.with_steps
      ((λ s, if p s then WorkflowStep.with_status st s else s)
         <$> Workflow.steps w) w.
Proof.
  unfold markAll. by rewrite foldl_update_step, alter_filter_refs.
Qed.
End loops.

(** ** The event bus *)

Lemma initialize_listeners o σ :
  listeners (initialize o σ).2
  = listeners σ ++
    [("task:customer_service",
      {| owner := entropy σ (drawn σ); method := handleTask_m |});
     ("task:scheduling",
      {| owner := entropy σ (S (drawn σ)); method := handleTask_m |});
     ("task:billing",
      {| owner := entropy σ (S (S (drawn σ))); method := handleTask_m |});
     ("task:document",
      {| owner := entropy σ (S (S (S (drawn σ)))); method := handleTask_m |});
     ("workflow:create", bound o createWorkflow_m);
     ("workflow:start", bound o startWorkflow_m);
     ("workflow:pause", bound o pauseWorkflow_m);
     ("workflow:resume", bound o resumeWorkflow_m);
     ("workflow:cancel", bound o cancelWorkflow_m);
     ("result:*", bound o handleTaskResult_m)].
Proof.
  unfold initialize. simpl. unfold subscribeToEvent. simpl.
  by rewrite <- !app_assoc.
Qed.

Lemma filter_unmatched {A} (P : A → Prop) `{!∀ x, Decision (P x)}
    (l : list A) :
  Forall (λ x, ¬ P x) l → filter P l = [].
Proof. induction 1; [done|]. by rewrite filter_cons_False. Qed.

Lemma initialize_store o σ :
  activeWorkflows (initialize o σ).1.2 = activeWorkflows o.
Proof. done. Qed.

Lemma handleTask_emitted execute task a σ :
  ∃ result,
    emitted (SpecializedAgent.handleTask execute task a σ).2
    = emitted σ ++
      [{| topic := "result:" +:+ AgentTask.id task;
          payload := ResultPayload result;
          delivered := listenersOf ("result:" +:+ AgentTask.id task) σ |}]
    ∧ match execute task σ with
      | Resolved r => result = r
      | Rejected e =>
          result = {| AgentResult.taskId := AgentTask.id task;
                      AgentResult.success := false;
                      AgentResult.data := ∅;
                      AgentResult.error := Some (error_message e);
                      AgentResult.completedAt := now σ;
                      AgentResult.workflowId := None;
                      AgentResult.stepId := None |}
      end.
Proof.
  unfold SpecializedAgent.handleTask.
  destruct (execute task σ) as [r|e]; eexists; split; done.
Qed.

(** C1 (as the code has it). The orchestrator registers its result listener
    under the literal event name [result:*], and the emitter delivers an
    event to the listeners registered under exactly its name. So on a bus
    whose only listeners are those [initialize] registered, the result a
    handler publishes for a task whose id is not [*] reaches no listener:
    [handleTaskResult] is not invoked. *)
Theorem result_listener_not_invoked o σ execute task a :
  listeners σ = [] →
  AgentTask.id task ≠ "*" →
  ∀ e, e ∈ emittedSince (initialize o σ).2
             (SpecializedAgent.handleTask execute task a (initialize o σ).2).2 →
       topic e = "result:" +:+ AgentTask.id task ∧ delivered e = [].
Proof.
  intros Hfresh Hid e.
  destruct (handleTask_emitted execute task a (initialize o σ).2)
    as (result & Hem & _).
  unfold emittedSince. rewrite Hem, drop_app_length.
  intros ->%list_elem_of_singleton. split; [done|].
  cbn [delivered]. unfold listenersOf.
  rewrite initialize_listeners, Hfresh. cbn [app].
  rewrite filter_unmatched; [done|].
  repeat (apply List.Forall_cons;
          [cbn; first [discriminate | intros [= H]; by apply Hid]|]).
  apply List.Forall_nil.
Qed.

(** The handler of a billing task with id [t1], published on the bus of a
    booted orchestrator. *)
Lemma result_listener_not_invoked_witness :
  Forall (λ e, topic e = "result:t1" ∧ delivered e = [])
    (emittedSince σ1
       (SpecializedAgent.handleTask
          (SpecializedAgent.execute SpecializedAgent.BillingAgent) task1
          (SpecializedAgent.Build "a" AgentType.BILLING AgentStatus.IDLE
             "" "" []) σ1).2)
  ∧ length (emittedSince σ1
              (SpecializedAgent.handleTask
                 (SpecializedAgent.execute SpecializedAgent.BillingAgent) task1
                 (SpecializedAgent.Build "a" AgentType.BILLING AgentStatus.IDLE
                    "" "" []) σ1).2) = 1.
Proof.
  split; [|reflexivity]. apply Forall_forall.
  apply (result_listener_not_invoked fresh σ0); [reflexivity | discriminate].
Defined.

(** ** Handlers report exactly once *)


(** ** Lifecycle operations on an unknown workflow *)



(** ** Results that resolve to nothing *)

(** C8. A result without a workflow id or a step id, or naming a workflow
    that is not stored, or a step id no step of that workflow has, leaves
    the orchestrator and the process untouched: the store is the same,
    nothing is published, and the call resolves. *)
Theorem uncorrelated_result_is_noop result o σ :
  uncorrelated result o →
  handleTaskResult result o σ = (Resolved (), o, σ).
Proof.
  unfold uncorrelated, handleTaskResult.
  intros [Hw | [Hs | [(wid & Hw & Hnone) | (wid & sid & w & Hw & Hs & Hsome & Hno)]]].
  - by rewrite Hw.
  - rewrite Hs. by rewrite orb_true_r.
  - destruct (falsy _ || falsy _); [done|]. rewrite Hw. simpl. by rewrite Hnone.
  - destruct (falsy _ || falsy _); [done|]. rewrite Hw, Hs. simpl. rewrite Hsome.
    destruct (list_find _ _) as [[i s]|] eqn:Hfind; [|done].
    apply list_find_Some in Hfind as (Hi & Hid & _).
    exfalso. apply (Hno s); [|done]. apply list_elem_of_lookup. eauto.
Qed.

Lemma uncorrelated_result_is_noop_witness :
  handleTaskResult (resultFor "s9" true) started.1.2 started.2
  = (Resolved (), started.1.2, started.2).
Proof.
  apply uncorrelated_result_is_noop.
  right; right; right. eexists "wf", "s9", _.
  split_and!; [reflexivity | reflexivity | vm_compute; reflexivity |].
  intros s Hs. simpl in Hs.
  repeat (apply elem_of_cons in Hs as [-> | Hs]; [discriminate|]).
  by apply elem_of_nil in Hs.
Defined.

(** ** Cancellation *)

(** What [cancelWorkflow] does to a stored workflow. *)
Lemma cancelWorkflow_run o σ workflowId workflow :
  activeWorkflows o !! workflowId = Some workflow →
  ∃ cancelled,
    cancelWorkflow workflowId o σ
    = (Resolved (), store workflowId cancelled o,
       publishEvent "workflow:cancelled" (WorkflowRef (Workflow.id workflow)) σ)
    ∧ Workflow.status cancelled = WorkflowStatus.failed
    ∧ Workflow.completedAt cancelled = Some (now σ)
    ∧ Workflow.steps cancelled = cancelledStep <$> Workflow.steps workflow
    ∧ ∀ i s, Workflow.steps workflow !! i = Some s →
        ∃ s', Workflow.steps cancelled !! i = Some s'
          ∧ (WorkflowStep.status s = WorkflowStepStatus.IN_PROGRESS →
             WorkflowStep.status s' = WorkflowStepStatus.FAILED)
          ∧ (WorkflowStep.status s = WorkflowStepStatus.PENDING →
             WorkflowStep.status s' = WorkflowStepStatus.SKIPPED)
          ∧ (WorkflowStep.status s ≠ WorkflowStepStatus.IN_PROGRESS →
             WorkflowStep.status s ≠ WorkflowStepStatus.PENDING → s' = s).
Proof.
  intros Hsome. unfold cancelWorkflow. rewrite Hsome.
  rewrite !markAll_fmap. simpl.
  rewrite <- list_fmap_compose.
  assert (∀ l : list WorkflowStep.t,
            ((λ s, if bool_decide (WorkflowStep.status s = WorkflowStepStatus.PENDING)
                   then WorkflowStep.with_status WorkflowStepStatus.SKIPPED s else s)
             ∘ (λ s, if bool_decide (WorkflowStep.status s
                                     = WorkflowStepStatus.IN_PROGRESS)
                     then WorkflowStep.with_status WorkflowStepStatus.FAILED s else s))
            <$> l = cancelledStep <$> l) as Hsteps.
  { intros l. apply list_fmap_ext. intros _ s _. unfold compose, cancelledStep.
    by destruct s as [? ? ? ? [] ? ? ?]. }
  rewrite Hsteps.
  eexists. split; [reflexivity|]. simpl. split_and!; [done..|].
  intros i s Hi. exists (cancelledStep s).
  rewrite list_lookup_fmap, Hi. split; [done|].
  unfold cancelledStep. destruct s as [? ? ? ? [] ? ? ?]; simpl; by split_and!.
Qed.

(** C5. Cancelling a stored workflow resolves, stores the workflow with
    status failed and the completion timestamp set to the current time,
    turns every in-progress step to failed and every pending step to
    skipped, leaves the other steps (completed ones among them) as they
    were, and publishes [workflow:cancelled] with the workflow's id. *)
Theorem cancelWorkflow_effect o σ workflowId workflow :
  activeWorkflows o !! workflowId = Some workflow →
  ∃ after,
    cancelWorkflow workflowId o σ
    = (Resolved (), store workflowId after o,
       publishEvent "workflow:cancelled" (WorkflowRef (Workflow.id workflow)) σ)
    ∧ Workflow.status after = WorkflowStatus.failed
    ∧ Workflow.completedAt after = Some (now σ)
    ∧ length (Workflow.steps after) = length (Workflow.steps workflow)
    ∧ ∀ i s, Workflow.steps workflow !! i = Some s →
        ∃ s', Workflow.steps after !! i = Some s'
          ∧ (WorkflowStep.status s = WorkflowStepStatus.IN_PROGRESS →
             WorkflowStep.status s' = WorkflowStepStatus.FAILED)
          ∧ (WorkflowStep.status s = WorkflowStepStatus.PENDING →
             WorkflowStep.status s' = WorkflowStepStatus.SKIPPED)
          ∧ (WorkflowStep.status s ≠ WorkflowStepStatus.IN_PROGRESS →
             WorkflowStep.status s ≠ WorkflowStepStatus.PENDING → s' = s).
Proof.
  intros Hsome.
  destruct (cancelWorkflow_run o σ workflowId workflow Hsome)
    as (c & Hrun & Hstatus & Hstamp & Hsteps & Heach).
  exists c. split_and!; [done..| |done].
  by rewrite Hsteps, length_fmap.
Qed.

(** One in-progress step and two pending steps. *)
Lemma cancelWorkflow_effect_witness :
  statuses started "wf"
  = [WorkflowStepStatus.IN_PROGRESS; WorkflowStepStatus.PENDING;
     WorkflowStepStatus.PENDING]
  ∧ ∃ after,
      activeWorkflows (cancelWorkflow "wf" started.1.2 started.2).1.2 !! "wf"
      = Some after
      ∧ Workflow.status after = WorkflowStatus.failed
      ∧ Workflow.completedAt after = Some 1000%Z
      ∧ WorkflowStep.status <$> Workflow.steps after
        = [WorkflowStepStatus.FAILED; WorkflowStepStatus.SKIPPED;
           WorkflowStepStatus.SKIPPED]
      ∧ topic <$> emittedSince started.2
                    (cancelWorkflow "wf" started.1.2 started.2).2
        = ["workflow:cancelled"].
Proof.
  split; [vm_compute; reflexivity|].
  edestruct (cancelWorkflow_effect started.1.2 started.2 "wf")
    as (after & Hrun & Hstatus & Hstamp & Hlen & Heach).
  { vm_compute. reflexivity. }
  exists after. rewrite Hrun.
  split_and!; [apply lookup_insert_eq | exact Hstatus | exact Hstamp
              | | vm_compute; reflexivity].
  destruct (Heach 0 _ eq_refl) as (s0 & H0 & Hs0 & _ & _).
  destruct (Heach 1 _ eq_refl) as (s1 & H1 & _ & Hs1 & _).
  destruct (Heach 2 _ eq_refl) as (s2 & H2 & _ & Hs2 & _).
  destruct (Workflow.steps after) as [|x0 [|x1 [|x2 [|x3 rest]]]];
    try discriminate Hlen.
  simpl in H0, H1, H2. injection H0 as ->. injection H1 as ->. injection H2 as ->.
  simpl. by rewrite Hs0, Hs1, Hs2.
Defined.

(** ** The result listener, step by step *)

Lemma handleTaskResult_resolved result o σ workflowId workflow i step :
  resolvesTo result o workflowId workflow i step →
  let r := fanOut o result step (recorded result i workflow) σ in
  handleTaskResult result o σ
  = if forallb settled (Workflow.steps r.1) then
      (Resolved (), store workflowId (concluded r.2 r.1) o,
       publishEvent "workflow:completed"
         (WorkflowOutcome (Workflow.id r.1) (negb (anyFailed r.1))) r.2)
    else (Resolved (), store workflowId r.1 o, r.2).
Proof.
  intros (Hw & Hwne & Hs & Hsne & Hsome & Hfind). simpl.
  unfold handleTaskResult, fanOut, recorded, verdict, dependents.
  rewrite Hw, Hs. simpl.
  rewrite !bool_decide_eq_false_2 by done. simpl.
  rewrite Hsome, Hfind.
  destruct (AgentResult.success result).
  - rewrite executeDependents_executeAll.
    destruct (executeAll _ _ _ _) as [w2 σ2]. simpl.
    by destruct (forallb settled (Workflow.steps w2)).
  - simpl. by destruct (forallb settled _).
Qed.

Lemma recorded_lookup result i w step :
  Workflow.steps w !! i = Some step →
  Workflow.steps (recorded result i w) !! i
  = Some (WorkflowStep.with_result result
            (WorkflowStep.with_status (verdict result) step)).
Proof.
  intros Hi. unfold recorded. simpl.
  by rewrite !list_lookup_alter_eq, Hi.
Qed.

Lemma recorded_other result i w j :
  j ≠ i → Workflow.steps (recorded result i w) !! j = Workflow.steps w !! j.
Proof.
  intros Hne. unfold recorded. simpl. by rewrite !list_lookup_alter_ne.
Qed.

Lemma fanOut_retouched o result step w σ :
  retouched w (fanOut o result step w σ).1.
Proof.
  unfold fanOut. destruct (AgentResult.success result);
    auto using executeAll_retouched, retouched_refl.
Qed.

(** The references of the fan-out point to pending steps. *)
Lemma dependents_pending step w j s :
  j ∈ dependents step w → Workflow.steps w !! j = Some s →
  WorkflowStep.status s = WorkflowStepStatus.PENDING.
Proof.
  unfold dependents. rewrite filter_refs_elem.
  intros (x & Hx & Hp) Hs.
  apply andb_true_iff in Hp as [_ Hp]. apply bool_decide_eq_true in Hp. congruence.
Qed.

(** The step a result was written to is not touched by the fan-out. *)
Lemma fanOut_recorded o result step w σ i :
  Workflow.steps w !! i = Some step →
  Workflow.steps (fanOut o result step (recorded result i w) σ).1 !! i
  = Some (WorkflowStep.with_result result
            (WorkflowStep.with_status (verdict result) step)).
Proof.
  intros Hi. unfold fanOut.
  destruct (AgentResult.success result) eqn:Hok; [|by apply recorded_lookup].
  rewrite executeAll_other; [by apply recorded_lookup|].
  intros Hin.
  pose proof (dependents_pending _ _ _ _ Hin (recorded_lookup result i w step Hi)) as Hp.
  simpl in Hp. unfold verdict in Hp. by rewrite Hok in Hp.
Qed.

(** ** Recording a result *)

(** C10. A result whose workflow id and step id resolve to a stored
    workflow and one of its steps always resolves to a write: whatever
    the step's status was, the stored step afterwards has the status the
    success flag dictates (completed or failed) and carries the result.
    When the result is a failure and every step of the workflow was
    already settled, the workflow is stored as failed, whatever its
    status was before. *)
Theorem handleTaskResult_overwrites result o σ workflowId workflow i step :
  resolvesTo result o workflowId workflow i step →
  ∃ o' σ' workflow' step',
    handleTaskResult result o σ = (Resolved (), o', σ')
    ∧ activeWorkflows o' !! workflowId = Some workflow'
    ∧ Workflow.steps workflow' !! i = Some step'
    ∧ WorkflowStep.status step'
      = (if AgentResult.success result then WorkflowStepStatus.COMPLETED
         else WorkflowStepStatus.FAILED)
    ∧ WorkflowStep.result step' = Some result
    ∧ (AgentResult.success result = false →
       forallb settled (Workflow.steps workflow) = true →
       Workflow.status workflow' = WorkflowStatus.failed).
Proof.
  intros Hres. pose proof Hres as (_ & _ & _ & _ & _ & Hfind).
  apply list_find_Some in Hfind as (Hi & _ & _).
  rewrite (handleTaskResult_resolved _ _ _ _ _ _ _ Hres). cbn zeta.
  pose proof (fanOut_recorded o result step workflow σ i Hi) as Hstep.
  assert (AgentResult.success result = false →
          forallb settled (Workflow.steps workflow) = true →
          forallb settled
            (Workflow.steps (fanOut o result step (recorded result i workflow) σ).1)
          = true
          ∧ anyFailed (fanOut o result step (recorded result i workflow) σ).1 = true)
    as Hfail.
  { intros Hko Hall. unfold fanOut. rewrite Hko. simpl.
    unfold anyFailed, recorded, verdict. rewrite Hko. simpl.
    rewrite list_alter_alter_eq. split.
    - apply forallb_forall. intros s Hs%list_elem_of_In.
      apply list_elem_of_lookup in Hs as [j Hs].
      destruct (decide (i = j)) as [->|Hne].
      + rewrite list_lookup_alter_eq, Hi in Hs. by injection Hs as <-.
      + rewrite list_lookup_alter_ne in Hs by done.
        rewrite forallb_forall in Hall. apply Hall, list_elem_of_In.
        apply list_elem_of_lookup. eauto.
    - apply existsb_exists. eexists. split.
      + apply list_elem_of_In, list_elem_of_lookup. exists i.
        by rewrite list_lookup_alter_eq, Hi.
      + done. }
  set (r := fanOut o result step (recorded result i workflow) σ) in *.
  destruct (forallb settled (Workflow.steps r.1)) eqn:Hall.
  - exists (store workflowId (concluded r.2 r.1) o). eexists _, _, _.
    split; [reflexivity|].
    split_and!; [apply lookup_insert_eq | exact Hstep | done | done |].
    intros Hko Hsettled. destruct (Hfail Hko Hsettled) as [_ Hany].
    change (Workflow.status (concluded r.2 r.1))
      with (if anyFailed r.1 then WorkflowStatus.failed
            else WorkflowStatus.completed).
    by rewrite Hany.
  - eexists _, _, _, _. split; [reflexivity|].
    split_and!; [apply lookup_insert_eq | exact Hstep | done | done |].
    intros Hko Hsettled. destruct (Hfail Hko Hsettled) as [? _]. congruence.
Qed.

(** A one-step workflow has completed; a second result for the same step,
    this time a failure, turns the step and the workflow to failed. *)
Lemma handleTaskResult_overwrites_witness :
  statuses singleDone "wf" = [WorkflowStepStatus.COMPLETED]
  ∧ statusOf singleDone "wf" = Some WorkflowStatus.completed
  ∧ ∃ o' σ' workflow' step',
      handleTaskResult (resultFor "s1" false) singleDone.1.2 singleDone.2
      = (Resolved (), o', σ')
      ∧ activeWorkflows o' !! "wf" = Some workflow'
      ∧ Workflow.steps workflow' !! 0 = Some step'
      ∧ WorkflowStep.status step' = WorkflowStepStatus.FAILED
      ∧ WorkflowStep.result step' = Some (resultFor "s1" false)
      ∧ Workflow.status workflow' = WorkflowStatus.failed.
Proof.
  split; [vm_compute; reflexivity|].
  split; [vm_compute; reflexivity|].
  edestruct (λ w, handleTaskResult_overwrites (resultFor "s1" false)
                    singleDone.1.2 singleDone.2 "wf" w 0 doneStep)
    as (o' & σ' & w' & s' & Hrun & Hstore & Hstep & Hstatus & Hresult & Hfailed).
  { unfold resolvesTo.
    split_and!; [reflexivity | discriminate | | | vm_compute; reflexivity
                | vm_compute; reflexivity]; [reflexivity | discriminate]. }
  exists o', σ', w', s'.
  split_and!; [exact Hrun | exact Hstore | exact Hstep | exact Hstatus
              | exact Hresult | apply Hfailed; vm_compute; reflexivity].
Defined.

(** ** The completion stamp *)

Lemma store_stamped k w o :
  stamped w → completionStamped o → completionStamped (store k w o).
Proof. intros ? ?. by apply map_Forall_insert_2. Qed.

Lemma active_stamped w :
  Workflow.status w = WorkflowStatus.active → stamped w.
Proof. intros Hst [H|H]; congruence. Qed.

Lemma recorded_stamped result i w : stamped w → stamped (recorded result i w).
Proof. done. Qed.

(** Either a result is ignored or it resolves to a stored step. *)
Lemma handleTaskResult_dichotomy result o σ :
  handleTaskResult result o σ = (Resolved (), o, σ)
  ∨ ∃ workflowId workflow i step, resolvesTo result o workflowId workflow i step.
Proof.
  unfold handleTaskResult, resolvesTo.
  destruct (AgentResult.workflowId result) as [wid|] eqn:Hw; [|by left].
  destruct (AgentResult.stepId result) as [sid|] eqn:Hs;
    [|left; simpl; by rewrite orb_true_r].
  simpl. case_bool_decide as Hwne; [by left|].
  case_bool_decide as Hsne; [by left|]. simpl.
  destruct (activeWorkflows o !! wid) as [w|] eqn:Hsome; [|by left].
  destruct (list_find _ _) as [[i step]|] eqn:Hfind; [|by left].
  right. exists wid, w, i, step.
  pose proof Hfind as (_ & Hid & _)%list_find_Some.
  simpl in Hid. rewrite Hid. by split_and!.
Qed.

(** Name the outcome of the dispatch loop in the goal, remembering that
    it only retouched the workflow. *)
Ltac run_loop w σ R :=
  match goal with
  | |- context [executeAll ?o ?refs ?w0 ?σ0] =>
      pose proof (executeAll_retouched o refs w0 σ0) as R;
      destruct (executeAll o refs w0 σ0) as [w σ]
  end.

Lemma perform_stamped op o σ :
  completionStamped o → completionStamped (perform op o σ).1.2.
Proof.
  intros Hinv. destruct op as [data|wid|wid|wid|wid|result]; simpl.
  - unfold createWorkflow.
    destruct (or_uuid _ σ) as [wid σa]. destruct (createSteps _ σa) as [steps σb].
    simpl. by apply store_stamped; [apply active_stamped|].
  - unfold startWorkflow. destruct (activeWorkflows o !! wid) as [w|]; [|done].
    run_loop w2 σ2 R. simpl in *.
    apply store_stamped; [|done]. apply active_stamped.
    by rewrite (retouched_status _ _ R).
  - unfold pauseWorkflow. destruct (activeWorkflows o !! wid) as [w|]; [|done].
    simpl. apply store_stamped; [|done]. intros [H|H]; discriminate.
  - unfold resumeWorkflow. destruct (activeWorkflows o !! wid) as [w|]; [|done].
    run_loop w2 σ2 R. simpl in *.
    apply store_stamped; [|done]. apply active_stamped.
    by rewrite (retouched_status _ _ R).
  - destruct (activeWorkflows o !! wid) as [w|] eqn:Hsome.
    + destruct (cancelWorkflow_run o σ wid w Hsome) as (c & -> & _ & Hc & _).
      simpl. apply store_stamped; [|done]. intros _. by rewrite Hc.
    + unfold cancelWorkflow. by rewrite Hsome.
  - destruct (handleTaskResult_dichotomy result o σ)
      as [-> | (wid & w & i & step & Hres)]; [done|].
    rewrite (handleTaskResult_resolved _ _ _ _ _ _ _ Hres). cbn zeta.
    destruct Hres as (_ & _ & _ & _ & Hsome & _).
    set (r := fanOut o result step (recorded result i w) σ).
    destruct (forallb settled (Workflow.steps r.1)); simpl.
    + apply store_stamped; [|done]. intros _. by eexists.
    + apply store_stamped; [|done].
      apply (retouched_stamped (recorded result i w)); [apply fanOut_retouched|].
      apply recorded_stamped. by apply (Hinv wid).
Qed.

(** C3 (as the code has it). In every orchestrator a program can reach,
    every stored workflow whose status is completed or failed has its
    completion timestamp set. *)
Theorem terminal_workflows_are_stamped o :
  reachable o →
  ∀ workflowId workflow,
    activeWorkflows o !! workflowId = Some workflow →
    Workflow.status workflow = WorkflowStatus.completed
    ∨ Workflow.status workflow = WorkflowStatus.failed →
    is_Some (Workflow.completedAt workflow).
Proof.
  intros Hreach. change (completionStamped o).
  induction Hreach as [id name description | o σ _ IH | o op σ _ IH].
  - intros k w Hk. simpl in Hk. by rewrite lookup_empty in Hk.
  - unfold completionStamped. by rewrite initialize_store.
  - by apply perform_stamped.
Qed.

Lemma reachable_cancelled : reachable cancelled.1.2.
Proof.
  unfold cancelled, started, created, booted.
  repeat first [apply reachable_perform | apply reachable_initialize].
  apply reachable_new.
Defined.

Lemma terminal_workflows_are_stamped_witness :
  ∃ workflow,
    activeWorkflows cancelled.1.2 !! "wf" = Some workflow
    ∧ Workflow.status workflow = WorkflowStatus.failed
    ∧ is_Some (Workflow.completedAt workflow).
Proof.
  eexists. split; [vm_compute; reflexivity|]. split; [reflexivity|].
  apply (terminal_workflows_are_stamped cancelled.1.2 reachable_cancelled "wf").
  - vm_compute. reflexivity.
  - right. reflexivity.
Defined.

(** C3 as stated fails: after create, start, cancel and resume the stored
    workflow is active and still carries the completion timestamp the
    cancellation gave it. *)
Lemma completedAt_iff_terminal_fails :
  ¬ (∀ o, reachable o →
       ∀ workflowId workflow,
         activeWorkflows o !! workflowId = Some workflow →
         (is_Some (Workflow.completedAt workflow)
          ↔ Workflow.status workflow = WorkflowStatus.completed
            ∨ Workflow.status workflow = WorkflowStatus.failed)).
Proof.
  intros Hclaim.
  assert (reachable resumed.1.2) as Hreach
    by (apply reachable_perform, reachable_cancelled).
  destruct (activeWorkflows resumed.1.2 !! "wf") as [w|] eqn:Hw;
    [|by vm_compute in Hw].
  assert (Workflow.status w = WorkflowStatus.active
          ∧ Workflow.completedAt w = Some 1000%Z) as [Hst Hstamp].
  { vm_compute in Hw. injection Hw as <-. by split. }
  destruct (Hclaim _ Hreach "wf" w Hw) as [Hdir _].
  destruct Hdir as [H|H]; [by rewrite Hstamp | congruence..].
Qed.

(** ** The dependency guard *)

Lemma createSteps_pending l σ :
  Forall (λ s, WorkflowStep.status s = WorkflowStepStatus.PENDING)
    (createSteps l σ).1.
Proof.
  revert σ. induction l as [|x l IH]; intros σ; simpl; [constructor|].
  unfold createStep. destruct (or_uuid _ σ) as [sid σa].
  specialize (IH σa). destruct (createSteps l σa) as [ss σb].
  by constructor.
Qed.

(** A loop over references to pending steps puts a step in progress only
    with its dependencies completed in the workflow the loop returns. *)
Lemma executeAll_in_progress o refs w σ j s' :
  (∀ k s, k ∈ refs → Workflow.steps w !! k = Some s →
          WorkflowStep.status s = WorkflowStepStatus.PENDING) →
  Workflow.steps (executeAll o refs w σ).1 !! j = Some s' →
  WorkflowStep.status s' = WorkflowStepStatus.IN_PROGRESS →
  (∀ s, Workflow.steps w !! j = Some s →
        WorkflowStep.status s ≠ WorkflowStepStatus.IN_PROGRESS) →
  dependenciesCompleted (executeAll o refs w σ).1 s'.
Proof.
  intros Hpending Hs' Hafter Hbefore.
  destruct (retouched_lookup _ _ _ _ (executeAll_retouched o refs w σ) Hs')
    as (s & Hs & Hs's).
  destruct (executeAll_guard o refs w σ) as [Hview Hguard].
  { intros k x Hk Hx. rewrite (Hpending k x Hk Hx). discriminate. }
  apply areStepDependenciesMet_sound.
  rewrite <- (Hguard j s s' Hs Hs' (Hbefore s Hs) Hafter).
  apply areStepDependenciesMet_same; [done|]. by rewrite Hs's.
Qed.

(** The same for the fan-out after a result. *)
Lemma fanOut_in_progress o result step w σ j s' :
  Workflow.steps (fanOut o result step w σ).1 !! j = Some s' →
  WorkflowStep.status s' = WorkflowStepStatus.IN_PROGRESS →
  (∀ s, Workflow.steps w !! j = Some s →
        WorkflowStep.status s ≠ WorkflowStepStatus.IN_PROGRESS) →
  dependenciesCompleted (fanOut o result step w σ).1 s'.
Proof.
  unfold fanOut. destruct (AgentResult.success result).
  - apply executeAll_in_progress. intros k s Hk Hs.
    by eapply dependents_pending.
  - simpl. intros Hs' Hafter Hbefore. by destruct (Hbefore s' Hs').
Qed.

Lemma perform_in_progress op o σ workflowId workflow' j step' :
  activeWorkflows (perform op o σ).1.2 !! workflowId = Some workflow' →
  Workflow.steps workflow' !! j = Some step' →
  WorkflowStep.status step' = WorkflowStepStatus.IN_PROGRESS →
  (∀ workflow step,
     activeWorkflows o !! workflowId = Some workflow →
     Workflow.steps workflow !! j = Some step →
     WorkflowStep.status step ≠ WorkflowStepStatus.IN_PROGRESS) →
  dependenciesCompleted workflow' step'.
Proof.
  intros Hstored Hj Hafter Hbefore.
  (* a workflow the operation did not write is as it was *)
  assert (activeWorkflows o !! workflowId = Some workflow' → False) as Hsame.
  { intros Hold. by apply (Hbefore workflow' step' Hold Hj). }
  assert (∀ k wf, activeWorkflows (store k wf o) !! workflowId = Some workflow' →
                  k = workflowId ∧ wf = workflow') as Hwritten.
  { intros k wf Hk. simpl in Hk. destruct (decide (k = workflowId)) as [->|Hne].
    - rewrite lookup_insert_eq in Hk. by injection Hk.
    - rewrite lookup_insert_ne in Hk by done. by destruct Hsame. }
  destruct op as [data|wid|wid|wid|wid|result]; simpl in Hstored.
  - (* create: every step is pending *)
    unfold createWorkflow in Hstored.
    pose proof (createSteps_pending (WorkflowInput.steps data)) as Hpend.
    destruct (or_uuid _ σ) as [wid σa]. specialize (Hpend σa).
    destruct (createSteps _ σa) as [steps σb].
    apply Hwritten in Hstored as [_ <-]. simpl in Hj.
    rewrite Forall_lookup in Hpend. specialize (Hpend j step' Hj). congruence.
  - (* start: only steps without dependencies are dispatched *)
    unfold startWorkflow in Hstored.
    destruct (activeWorkflows o !! wid) as [w|] eqn:Hsome; [|by destruct Hsame].
    set (w1 := Workflow.with_updatedAt _ _) in Hstored.
    set (refs := filter_refs _ _) in Hstored.
    pose proof (executeAll_retouched o refs w1 σ) as R.
    pose proof (executeAll_other o refs w1 σ j) as Hother.
    destruct (executeAll o refs w1 σ) as [w2 σ2].
    apply Hwritten in Hstored as [-> <-]. simpl in *.
    destruct (retouched_lookup _ _ _ _ R Hj) as (s & Hs & Hs's).
    destruct (decide (j ∈ refs)) as [Hin|Hout].
    + apply filter_refs_elem in Hin as (x & Hx & Hnodeps).
      apply bool_decide_eq_true in Hnodeps.
      assert (x = s) as ->
        by (change (Workflow.steps w1) with (Workflow.steps w) in Hs; congruence).
      intros d Hd. rewrite Hs's in Hd. simpl in Hd.
      destruct (WorkflowStep.dependsOn s); [by apply elem_of_nil in Hd | done].
    + rewrite Hother in Hj by done. destruct (Hbefore w step' Hsome Hj Hafter).
  - (* pause: no step is written *)
    unfold pauseWorkflow in Hstored.
    destruct (activeWorkflows o !! wid) as [w|] eqn:Hsome; [|by destruct Hsame].
    apply Hwritten in Hstored as [-> <-].
    destruct (Hbefore w step' Hsome Hj Hafter).
  - (* resume: the loop runs over pending steps *)
    unfold resumeWorkflow in Hstored.
    destruct (activeWorkflows o !! wid) as [w|] eqn:Hsome; [|by destruct Hsame].
    set (w1 := Workflow.with_updatedAt _ _) in Hstored.
    set (refs := filter_refs _ _) in Hstored.
    pose proof (executeAll_in_progress o refs w1 σ j step') as Hloop.
    destruct (executeAll o refs w1 σ) as [w2 σ2].
    apply Hwritten in Hstored as [-> <-]. simpl in Hloop.
    apply Hloop; [|done|done|intros s Hs; by apply (Hbefore w)].
    intros k s (x & Hx & Hp)%filter_refs_elem Hs.
    apply andb_true_iff in Hp as [Hp _]. apply bool_decide_eq_true in Hp.
    simpl in Hx. congruence.
  - (* cancel: no step ends in progress *)
    destruct (activeWorkflows o !! wid) as [w|] eqn:Hsome.
    + destruct (cancelWorkflow_run o σ wid w Hsome) as (c & Hrun & _ & _ & Hsteps & _).
      rewrite Hrun in Hstored. apply Hwritten in Hstored as [-> <-].
      rewrite Hsteps, list_lookup_fmap in Hj.
      destruct (Workflow.steps w !! j) as [s|]; [|done].
      injection Hj as <-. unfold cancelledStep in Hafter.
      by destruct s as [? ? ? ? [] ? ? ?].
    + unfold cancelWorkflow in Hstored. rewrite Hsome in Hstored. by destruct Hsame.
  - (* result: the fan-out runs over pending steps *)
    destruct (handleTaskResult_dichotomy result o σ)
      as [Hrun | (wid & w & i & step & Hres)].
    { rewrite Hrun in Hstored. by destruct Hsame. }
    rewrite (handleTaskResult_resolved _ _ _ _ _ _ _ Hres) in Hstored.
    cbn zeta in Hstored.
    destruct Hres as (_ & _ & _ & _ & Hsome & (Hi & _ & _)%list_find_Some).
    pose proof (fanOut_in_progress o result step (recorded result i w) σ j step')
      as Hloop.
    set (r := fanOut o result step (recorded result i w) σ) in *.
    assert (Workflow.steps workflow' = Workflow.steps r.1 ∧ wid = workflowId)
      as [Hsteps ->].
    { destruct (forallb settled (Workflow.steps r.1));
        apply Hwritten in Hstored as [-> <-]; done. }
    unfold dependenciesCompleted. rewrite Hsteps. rewrite Hsteps in Hj.
    apply Hloop; [done..|].
    intros s Hs. destruct (decide (j = i)) as [->|Hne].
    + rewrite (recorded_lookup _ _ _ _ Hi) in Hs. injection Hs as <-.
      simpl. unfold verdict. by destruct (AgentResult.success result).
    + rewrite recorded_other in Hs by done. by apply (Hbefore w).
Qed.

(** C4. [executeWorkflowStep] is the only place a step is put in
    progress, and it has an effect only on a step whose dependencies are
    all completed steps of the same (active) workflow at that moment.
    After any operation of the orchestrator (start, resume and result
    handling being the ones that dispatch), every stored step that is in
    progress and was not so before has every identifier in its
    [dependsOn] naming a completed step of its workflow. *)
Theorem in_progress_only_with_dependencies_completed o σ :
  (∀ workflow i step,
     Workflow.steps workflow !! i = Some step →
     executeWorkflowStep o workflow i σ ≠ (workflow, σ) →
     dependenciesCompleted workflow step)
  ∧ (∀ op workflowId workflow' j step',
       activeWorkflows (perform op o σ).1.2 !! workflowId = Some workflow' →
       Workflow.steps workflow' !! j = Some step' →
       WorkflowStep.status step' = WorkflowStepStatus.IN_PROGRESS →
       (∀ workflow step,
          activeWorkflows o !! workflowId = Some workflow →
          Workflow.steps workflow !! j = Some step →
          WorkflowStep.status step ≠ WorkflowStepStatus.IN_PROGRESS) →
       dependenciesCompleted workflow' step').
Proof.
  split.
  - intros w i step Hi Heffect.
    destruct (executeWorkflowStep_cases o w i σ)
      as [E | (step0 & Hstep0 & _ & Hmet & _)]; [done|].
    apply areStepDependenciesMet_sound. congruence.
  - intros op. apply perform_in_progress.
Qed.

(** After [s1] completes, [s2] (position 1, depending on [s1]) is put in
    progress. *)
Lemma in_progress_only_with_dependencies_completed_witness :
  statuses started "wf"
  = [WorkflowStepStatus.IN_PROGRESS; WorkflowStepStatus.PENDING;
     WorkflowStepStatus.PENDING]
  ∧ ∃ workflow' step',
      activeWorkflows advanced.1.2 !! "wf" = Some workflow'
      ∧ Workflow.steps workflow' !! 1 = Some step'
      ∧ WorkflowStep.status step' = WorkflowStepStatus.IN_PROGRESS
      ∧ WorkflowStep.dependsOn step' = ["s1"]
      ∧ dependenciesCompleted workflow' step'.
Proof.
  split; [vm_compute; reflexivity|].
  eexists _, _.
  split; [vm_compute; reflexivity|].
  split; [reflexivity|]. split; [reflexivity|]. split; [reflexivity|].
  apply (proj2 (in_progress_only_with_dependencies_completed
                  started.1.2 started.2)
           (TaskResult (resultFor "s1" true)) "wf" _ 1 _).
  - vm_compute. reflexivity.
  - reflexivity.
  - reflexivity.
  - intros w s Hw Hs. vm_compute in Hw. injection Hw as <-.
    simpl in Hs. injection Hs as <-. discriminate.
Defined.

(** ** Starting a workflow *)

Lemma executeWorkflowStep_ready o w i σ step :
  Workflow.steps w !! i = Some step →
  Workflow.status w = WorkflowStatus.active →
  areStepDependenciesMet w step = true →
  executeWorkflowStep o w i σ
  = match agents o !! WorkflowStep.agentType step with
    | None =>
        (Workflow.update_step
           (WorkflowStep.with_status WorkflowStepStatus.FAILED) i w, σ)
    | Some _ =>
        (Workflow.update_step
           (WorkflowStep.with_status WorkflowStepStatus.IN_PROGRESS) i w,
         dispatch w step σ)
    end.
Proof.
  intros Hi Hactive Hmet. unfold executeWorkflowStep.
  rewrite Hi, Hactive, Hmet. simpl.
  destruct (agents o !! WorkflowStep.agentType step); [done|].
  f_equal. unfold Workflow.update_step, Workflow.with_steps. simpl. f_equal.
  rewrite list_alter_alter_eq. by apply list_alter_ext.
Qed.

Lemma stepIdOf_dispatch w step σ e :
  emitted (dispatch w step σ) = emitted σ ++ [e] →
  isTask e = true
  ∧ topic e = "task:" +:+ AgentType.value (WorkflowStep.agentType step)
  ∧ stepIdOf e = Some (WorkflowStep.id step).
Proof.
  unfold dispatch, publishEvent. simpl.
  intros He%app_inv_head. injection He as <-.
  unfold stepIdOf, isTask. simpl.
  rewrite lookup_insert_ne by done. by rewrite lookup_insert_eq.
Qed.





(** ** After the last step has settled *)

Lemma cancelledStep_settled s : settled (cancelledStep s) = true.
Proof. unfold cancelledStep. by destruct s as [? ? ? ? [] ? ? ?]. Qed.

Lemma settled_not_pending s :
  settled s = true →
  bool_decide (WorkflowStep.status s = WorkflowStepStatus.PENDING) = false.
Proof. unfold settled. by destruct (WorkflowStep.status s). Qed.

Lemma forallb_lookup {A} (p : A → bool) (l : list A) i x :
  forallb p l = true → l !! i = Some x → p x = true.
Proof.
  rewrite forallb_forall. intros Hall Hi.
  apply Hall, list_elem_of_In, list_elem_of_lookup. eauto.
Qed.

(** With every step settled there is nothing for [resumeWorkflow] to
    dispatch: it only marks the workflow active again. *)
Lemma resumeWorkflow_settled o σ workflowId w :
  activeWorkflows o !! workflowId = Some w →
  forallb settled (Workflow.steps w) = true →
  resumeWorkflow workflowId o σ
  = (Resolved (),
     store workflowId
       (Workflow.with_updatedAt (now σ)
          (Workflow.with_status WorkflowStatus.active w)) o,
     σ).
Proof.
  intros Hsome Hall. unfold resumeWorkflow. rewrite Hsome.
  unfold filter_refs. rewrite filter_from_none; [done|].
  intros s Hs. simpl in Hs. apply list_elem_of_lookup in Hs as [j Hs].
  by rewrite (settled_not_pending s (forallb_lookup _ _ _ _ Hall Hs)).
Qed.

Lemma recorded_settled result i w :
  forallb settled (Workflow.steps w) = true →
  forallb settled (Workflow.steps (recorded result i w)) = true.
Proof.
  intros Hall. apply forallb_forall. intros s Hs%list_elem_of_In.
  apply list_elem_of_lookup in Hs as [j Hs].
  destruct (decide (j = i)) as [->|Hne].
  - destruct (Workflow.steps w !! i) as [x|] eqn:Hx.
    + rewrite (recorded_lookup _ _ _ _ Hx) in Hs. injection Hs as <-.
      unfold settled, verdict. simpl. by destruct (AgentResult.success result).
    + unfold recorded in Hs. simpl in Hs.
      rewrite !list_lookup_alter_eq, Hx in Hs. done.
  - rewrite recorded_other in Hs by done. by eapply forallb_lookup.
Qed.

(** With every step settled a result still overwrites its step, has no
    step to fan out to, and concludes the workflow once more. *)
Lemma handleTaskResult_settled result o σ workflowId w i step :
  resolvesTo result o workflowId w i step →
  forallb settled (Workflow.steps w) = true →
  handleTaskResult result o σ
  = (Resolved (),
     store workflowId (concluded σ (recorded result i w)) o,
     publishEvent "workflow:completed"
       (WorkflowOutcome (Workflow.id w) (negb (anyFailed (recorded result i w))))
       σ).
Proof.
  intros Hres Hall.
  rewrite (handleTaskResult_resolved _ _ _ _ _ _ _ Hres). cbn zeta.
  pose proof (recorded_settled result i w Hall) as Hrec.
  assert (fanOut o result step (recorded result i w) σ = (recorded result i w, σ))
    as ->.
  { unfold fanOut. destruct (AgentResult.success result); [|done].
    unfold dependents, filter_refs. rewrite filter_from_none; [done|].
    intros s Hs. apply list_elem_of_lookup in Hs as [j Hs].
    rewrite (settled_not_pending s (forallb_lookup _ _ _ _ Hrec Hs)).
    by rewrite andb_false_r. }
  simpl fst. simpl snd. by rewrite Hrec.
Qed.

(** C2 (as the code has it). Cancelling a stored workflow stores it as
    failed with every step completed, failed or skipped, but the status
    is not absorbing. A later resume stores the workflow as active again,
    with the same steps and completion timestamp, and publishes nothing.
    A later result that resolves to one of its steps overwrites that
    step's status and result, leaves the other steps as they are,
    dispatches no task, publishes [workflow:completed], and stores the
    workflow as failed if a step is then failed and as completed
    otherwise. *)
Theorem cancelled_workflow_reacts_to_later_events o σ workflowId workflow :
  activeWorkflows o !! workflowId = Some workflow →
  ∃ wc,
    let oc := (cancelWorkflow workflowId o σ).1.2 in
    activeWorkflows oc !! workflowId = Some wc
    ∧ Workflow.status wc = WorkflowStatus.failed
    ∧ forallb settled (Workflow.steps wc) = true
    ∧ (∀ σ', ∃ wr,
         resumeWorkflow workflowId oc σ'
         = (Resolved (), store workflowId wr oc, σ')
         ∧ Workflow.status wr = WorkflowStatus.active
         ∧ Workflow.steps wr = Workflow.steps wc
         ∧ Workflow.completedAt wr = Workflow.completedAt wc)
    ∧ (∀ σ' result i step,
         resolvesTo result oc workflowId wc i step →
         ∃ after,
           handleTaskResult result oc σ'
           = (Resolved (), store workflowId after oc,
              publishEvent "workflow:completed"
                (WorkflowOutcome (Workflow.id wc) (negb (anyFailed after)))
                σ')
           ∧ Workflow.steps after
             = <[i := WorkflowStep.with_result result
                        (WorkflowStep.with_status (verdict result) step)]>
                 (Workflow.steps wc)
           ∧ Workflow.status after
             = (if anyFailed after then WorkflowStatus.failed
                else WorkflowStatus.completed)
           ∧ is_Some (Workflow.completedAt after)).
Proof.
  intros Hsome.
  destruct (cancelWorkflow_run o σ workflowId workflow Hsome)
    as (c & Hrun & Hstatus & _ & Hsteps & _).
  exists c. rewrite Hrun. cbn zeta. simpl fst. simpl snd.
  assert (activeWorkflows (store workflowId c o) !! workflowId = Some c) as Hc
    by apply lookup_insert_eq.
  assert (forallb settled (Workflow.steps c) = true) as Hall.
  { rewrite Hsteps. apply forallb_forall.
    intros s (x & -> & _)%list_elem_of_In%list_elem_of_fmap.
    apply cancelledStep_settled. }
  split_and!; [done..| |].
  - intros σ'. eexists. split; [by apply resumeWorkflow_settled|]. done.
  - intros σ' result i step Hres.
    exists (concluded σ' (recorded result i c)).
    split; [by apply (handleTaskResult_settled _ _ _ _ _ _ step)|].
    pose proof Hres as (_ & _ & _ & _ & _ & (Hi & _ & _)%list_find_Some).
    split_and!; [|done|by eexists].
    unfold recorded. simpl. rewrite list_alter_alter_eq.
    apply list_eq. intros j. destruct (decide (i = j)) as [->|Hne].
    + rewrite list_lookup_alter_eq, Hi. simpl.
      by rewrite list_lookup_insert_eq by by eapply lookup_lt_Some.
    + by rewrite list_lookup_alter_ne, list_lookup_insert_ne.
Qed.

(** The onboarding workflow, cancelled while [s1] is in progress, then
    resumed. *)
Lemma cancelled_workflow_reacts_to_later_events_witness :
  ∃ wc wr,
    activeWorkflows cancelled.1.2 !! "wf" = Some wc
    ∧ Workflow.status wc = WorkflowStatus.failed
    ∧ resumeWorkflow "wf" cancelled.1.2 cancelled.2
      = (Resolved (), store "wf" wr cancelled.1.2, cancelled.2)
    ∧ Workflow.status wr = WorkflowStatus.active
    ∧ Workflow.steps wr = Workflow.steps wc.
Proof.
  edestruct (cancelled_workflow_reacts_to_later_events
               started.1.2 started.2 "wf")
    as (c & Hc & Hstatus & _ & Hresume & _).
  { vm_compute. reflexivity. }
  destruct (Hresume cancelled.2) as (r & Hrun & Hactive & Hsame & _).
  exists c, r. split_and!; [exact Hc | exact Hstatus | exact Hrun
                           | exact Hactive | exact Hsame].
Defined.

(** C2 as stated fails: after the cancellation the workflow is failed
    with steps failed, skipped, skipped; a resume makes it active, and a
    late successful result for [s1] instead makes that step completed and
    the workflow completed. *)
Lemma cancelled_status_is_not_absorbing :
  statusOf cancelled "wf" = Some WorkflowStatus.failed
  ∧ statuses cancelled "wf"
    = [WorkflowStepStatus.FAILED; WorkflowStepStatus.SKIPPED;
       WorkflowStepStatus.SKIPPED]
  ∧ resumed = perform (Resume "wf") cancelled.1.2 cancelled.2
  ∧ statusOf resumed "wf" = Some WorkflowStatus.active
  ∧ lateResult
    = perform (TaskResult (resultFor "s1" true)) cancelled.1.2 cancelled.2
  ∧ statusOf lateResult "wf" = Some WorkflowStatus.completed
  ∧ statuses lateResult "wf"
    = [WorkflowStepStatus.COMPLETED; WorkflowStepStatus.SKIPPED;
       WorkflowStepStatus.SKIPPED].
Proof. split_and!; vm_compute; reflexivity. Qed.

(** * Further properties *)

(** ** What an operation leaves alone *)

Lemma sameStep_refl s : sameStep s s.
Proof. by repeat split. Qed.

Lemma sameStep_trans s1 s2 s3 : sameStep s1 s2 → sameStep s2 s3 → sameStep s1 s3.
Proof. unfold sameStep. intros (?&?&?&?&?&?) (?&?&?&?&?&?). split_and!; congruence. Qed.

Lemma evolved_refl w : evolved w w.
Proof.
  unfold evolved. split_and!; try done.
  apply Forall_Forall2_diag, Forall_forall. intros s _. apply sameStep_refl.
Qed.

Lemma evolved_trans w1 w2 w3 : evolved w1 w2 → evolved w2 w3 → evolved w1 w3.
Proof.
  unfold evolved. intros (?&?&?&?&?&F12) (?&?&?&?&?&F23).
  split_and!; try congruence.
  eapply Forall2_trans; [|done..]. apply sameStep_trans.
Qed.

Lemma evolved_alter f i w :
  (∀ s, sameStep s (f s)) → evolved w (Workflow.update_step f i w).
Proof.
  intros Hf. unfold evolved. simpl. split_and!; try done.
  generalize (Workflow.steps w). intros l. revert i.
  induction l as [|s l IH]; intros [|i]; simpl; constructor;
    try done; try apply sameStep_refl; try apply IH.
  apply Forall_Forall2_diag, Forall_forall. intros x _. apply sameStep_refl.
Qed.

Lemma retouched_evolved w w' : retouched w w' → evolved w w'.
Proof.
  intros [E F]. rewrite E. unfold evolved. simpl. split_and!; try done.
  eapply Forall2_impl; [done|]. intros s s' ->. by repeat split.
Qed.

Lemma recorded_evolved result i w : evolved w (recorded result i w).
Proof.
  unfold recorded.
  eapply evolved_trans; apply evolved_alter; intros s; by repeat split.
Qed.

Lemma extends_refl σ : extends σ σ.
Proof. unfold extends. split_and!; try done. exists []. by rewrite app_nil_r. Qed.

Lemma extends_trans σ1 σ2 σ3 : extends σ1 σ2 → extends σ2 σ3 → extends σ1 σ3.
Proof.
  unfold extends. intros (?&?&?&?&l1&E1) (?&?&?&?&l2&E2).
  split_and!; try congruence; try lia.
  exists (l1 ++ l2). by rewrite E2, E1, app_assoc.
Qed.

Lemma extends_publishEvent name data σ : extends σ (publishEvent name data σ).
Proof. unfold extends. simpl. split_and!; try done. by eexists. Qed.

Lemma extends_uuidv4 σ : extends σ (uuidv4 σ).2.
Proof.
  unfold extends. simpl. split_and!; try done; try lia.
  exists []. by rewrite app_nil_r.
Qed.

Lemma extends_or_uuid s σ : extends σ (or_uuid s σ).2.
Proof.
  unfold or_uuid. destruct (falsy s); [apply extends_uuidv4 | apply extends_refl].
Qed.

Lemma extends_createSteps l σ : extends σ (createSteps l σ).2.
Proof.
  revert σ. induction l as [|x l IH]; intros σ; simpl; [apply extends_refl|].
  unfold createStep.
  pose proof (extends_or_uuid (StepInput.id x) σ) as H1.
  destruct (or_uuid _ σ) as [sid σa]. specialize (IH σa).
  destruct (createSteps l σa) as [ss σb]. simpl in *.
  by eapply extends_trans.
Qed.

Lemma extends_executeWorkflowStep o w i σ :
  extends σ (executeWorkflowStep o w i σ).2.
Proof.
  destruct (executeWorkflowStep_cases o w i σ)
    as [-> | (step & _ & _ & _ & [[_ ->] | [_ ->]])];
    simpl; try apply extends_refl.
  unfold dispatch.
  eapply extends_trans; [apply extends_uuidv4 | apply extends_publishEvent].
Qed.

Lemma extends_executeAll o refs w σ : extends σ (executeAll o refs w σ).2.
Proof.
  revert w σ. induction refs as [|i refs IH]; intros w σ; [apply extends_refl|].
  rewrite executeAll_cons.
  eapply extends_trans; [apply extends_executeWorkflowStep | apply IH].
Qed.

Lemma extends_fanOut o result step w σ : extends σ (fanOut o result step w σ).2.
Proof.
  unfold fanOut. destruct (AgentResult.success result);
    [apply extends_executeAll | apply extends_refl].
Qed.

(** [cancelWorkflow] on a stored workflow, in one equation. *)
Lemma cancelWorkflow_found o σ workflowId w :
  activeWorkflows o !! workflowId = Some w →
  cancelWorkflow workflowId o σ
  = (Resolved (),
     store workflowId
       (Workflow.with_steps (cancelledStep <$> Workflow.steps w)
          (Workflow.with_completedAt (now σ)
             (Workflow.with_updatedAt (now σ)
                (Workflow.with_status WorkflowStatus.failed w)))) o,
     publishEvent "workflow:cancelled" (WorkflowRef (Workflow.id w)) σ).
Proof.
  intros Hsome. unfold cancelWorkflow. rewrite Hsome.
  rewrite !markAll_fmap. simpl. rewrite <- list_fmap_compose.
  do 3 f_equal. unfold Workflow.with_steps. simpl. f_equal.
  apply list_fmap_ext. intros _ s _. unfold compose, cancelledStep.
  by destruct s as [? ? ? ? [] ? ? ?].
Qed.

Lemma evolved_fields w w' :
  Workflow.id w' = Workflow.id w →
  Workflow.name w' = Workflow.name w →
  Workflow.description w' = Workflow.description w →
  Workflow.data w' = Workflow.data w →
  Workflow.createdAt w' = Workflow.createdAt w →
  Workflow.steps w' = Workflow.steps w →
  evolved w w'.
Proof.
  intros ? ? ? ? ? Hsteps. unfold evolved. rewrite Hsteps. split_and!; try done.
  apply Forall_Forall2_diag, Forall_forall. intros s _. apply sameStep_refl.
Qed.

Lemma cancelledStep_same s : sameStep s (cancelledStep s).
Proof. unfold cancelledStep. destruct s as [? ? ? ? [] ? ? ?]; by repeat split. Qed.

(** Every operation either leaves the orchestrator as it is, or rewrites
    one stored workflow into a later record of the same workflow, or (for
    a create) stores a new workflow. *)
Lemma perform_written op o σ :
  (perform op o σ).1.2 = o
  ∨ (∃ k w w', activeWorkflows o !! k = Some w ∧ evolved w w'
               ∧ (perform op o σ).1.2 = store k w' o)
  ∨ (∃ data w', op = Create data
                ∧ Workflow.status w' = WorkflowStatus.active
                ∧ Forall (λ s, WorkflowStep.status s = WorkflowStepStatus.PENDING)
                    (Workflow.steps w')
                ∧ (perform op o σ).1.2 = store (Workflow.id w') w' o).
Proof.
  destruct op as [data|wid|wid|wid|wid|result]; simpl.
  - right; right. unfold createWorkflow.
    pose proof (createSteps_pending (WorkflowInput.steps data)) as Hpend.
    destruct (or_uuid _ σ) as [wid σa]. specialize (Hpend σa).
    destruct (createSteps _ σa) as [steps σb].
    eexists data, (Workflow.Build wid _ _ steps _ WorkflowStatus.active _ _ None).
    by split_and!.
  - unfold startWorkflow. destruct (activeWorkflows o !! wid) as [w|] eqn:Hw; [|by left].
    right; left. run_loop w2 σ2 R. exists wid, w, w2. split_and!; [done| |done].
    eapply evolved_trans; [|by apply retouched_evolved]. by apply evolved_fields.
  - unfold pauseWorkflow. destruct (activeWorkflows o !! wid) as [w|] eqn:Hw; [|by left].
    right; left. eexists wid, w, _. split_and!; [done| |done].
    by apply evolved_fields.
  - unfold resumeWorkflow. destruct (activeWorkflows o !! wid) as [w|] eqn:Hw; [|by left].
    right; left. run_loop w2 σ2 R. exists wid, w, w2. split_and!; [done| |done].
    eapply evolved_trans; [|by apply retouched_evolved]. by apply evolved_fields.
  - destruct (activeWorkflows o !! wid) as [w|] eqn:Hw.
    + right; left. rewrite (cancelWorkflow_found o σ wid w Hw).
      eexists wid, w, _. split_and!; [done| |done].
      unfold evolved. simpl. split_and!; try done.
      apply Forall2_fmap_r, Forall_Forall2_diag, Forall_forall.
      intros s _. apply cancelledStep_same.
    + left. unfold cancelWorkflow. by rewrite Hw.
  - destruct (handleTaskResult_dichotomy result o σ)
      as [-> | (wid & w & i & step & Hres)]; [by left|].
    right; left.
    rewrite (handleTaskResult_resolved _ _ _ _ _ _ _ Hres). cbn zeta.
    pose proof (fanOut_retouched o result step (recorded result i w) σ) as R.
    set (r := fanOut o result step (recorded result i w) σ) in *.
    destruct Hres as (_ & _ & _ & _ & Hsome & _).
    assert (evolved w r.1) as Hev.
    { eapply evolved_trans; [apply recorded_evolved | by apply retouched_evolved]. }
    destruct (forallb settled (Workflow.steps r.1)).
    + eexists wid, w, _. split_and!; [done| |done].
      eapply evolved_trans; [exact Hev|]. by apply evolved_fields.
    + by eexists wid, w, _.
Qed.

(** X1. An operation touches at most one entry of the workflow store: all
    other entries are as before, no entry is ever removed, and the
    registry of handlers and the orchestrator's own fields are as before. *)
Theorem perform_touches_one_workflow op o σ :
  agents (perform op o σ).1.2 = agents o
  ∧ WorkflowOrchestratorAgent.id (perform op o σ).1.2
    = WorkflowOrchestratorAgent.id o
  ∧ (∀ k, is_Some (activeWorkflows o !! k) →
          is_Some (activeWorkflows (perform op o σ).1.2 !! k))
  ∧ ∃ k, ∀ k', k' ≠ k →
      activeWorkflows (perform op o σ).1.2 !! k' = activeWorkflows o !! k'.
Proof.
  destruct (perform_written op o σ)
    as [-> | [(k & w & w' & _ & _ & ->) | (data & w' & _ & _ & _ & ->)]].
  - split_and!; try done. by exists "".
  - split_and!; try done.
    + intros k0 Hk0. simpl. destruct (decide (k = k0)) as [->|Hne].
      * rewrite lookup_insert_eq. by eexists.
      * by rewrite lookup_insert_ne.
    + exists k. intros k' Hne. simpl. by rewrite lookup_insert_ne.
  - split_and!; try done.
    + intros k0 Hk0. simpl. destruct (decide (Workflow.id w' = k0)) as [->|Hne].
      * rewrite lookup_insert_eq. by eexists.
      * by rewrite lookup_insert_ne.
    + exists (Workflow.id w'). intros k' Hne. simpl. by rewrite lookup_insert_ne.
Qed.

(** X2. No operation other than a create changes what a stored workflow
    is: afterwards the workflow is still stored under its key with the
    same identifier, name, description, data and creation time, and the
    same steps in the same order, each with the same identifier, name,
    handler type, action, configuration and dependencies. Only statuses,
    results and the update and completion times can differ. *)
Theorem perform_keeps_definition op o σ k w :
  (∀ data, op ≠ Create data) →
  activeWorkflows o !! k = Some w →
  ∃ w', activeWorkflows (perform op o σ).1.2 !! k = Some w'
        ∧ evolved w w'
        ∧ length (Workflow.steps w') = length (Workflow.steps w).
Proof.
  intros Hop Hk.
  assert (∃ w', activeWorkflows (perform op o σ).1.2 !! k = Some w' ∧ evolved w w')
    as (w' & Hk' & Hev).
  { destruct (perform_written op o σ)
      as [-> | [(k0 & w0 & w0' & Hk0 & Hev & ->) | (data & w' & -> & _)]].
    - exists w. split; [done | apply evolved_refl].
    - simpl. destruct (decide (k0 = k)) as [->|Hne].
      + rewrite lookup_insert_eq. exists w0'. split; [done|]. congruence.
      + rewrite lookup_insert_ne by done. exists w. split; [done | apply evolved_refl].
    - by destruct (Hop data). }
  exists w'. split_and!; [done..|].
  destruct Hev as (_ & _ & _ & _ & _ & F). symmetry. by eapply Forall2_length.
Qed.

Lemma perform_keeps_definition_witness :
  ∃ w w',
    activeWorkflows started.1.2 !! "wf" = Some w
    ∧ activeWorkflows cancelled.1.2 !! "wf" = Some w'
    ∧ evolved w w'
    ∧ length (Workflow.steps w') = 3.
Proof.
  destruct (activeWorkflows started.1.2 !! "wf") as [w|] eqn:Hw;
    [|by vm_compute in Hw].
  destruct (perform_keeps_definition (Cancel "wf") started.1.2 started.2 "wf" w)
    as (w' & Hw' & Hev & Hlen); [discriminate | exact Hw |].
  exists w, w'. split_and!; [done | exact Hw' | exact Hev |].
  rewrite Hlen. vm_compute in Hw. by injection Hw as <-.
Defined.

(** X3. In every orchestrator a program can reach, a workflow is stored
    under its own identifier. *)
Theorem stored_workflow_id_is_key o :
  reachable o →
  ∀ k w, activeWorkflows o !! k = Some w → Workflow.id w = k.
Proof.
  induction 1 as [id name description | o σ _ IH | o op σ _ IH]; intros k w Hk.
  - simpl in Hk. by rewrite lookup_empty in Hk.
  - rewrite initialize_store in Hk. by apply IH.
  - destruct (perform_written op o σ)
      as [E | [(k0 & w0 & w0' & Hk0 & Hev & E) | (data & w' & _ & _ & _ & E)]];
      rewrite E in Hk; [by apply IH | |]; simpl in Hk.
    + destruct (decide (k0 = k)) as [->|Hne].
      * rewrite lookup_insert_eq in Hk. injection Hk as <-.
        destruct Hev as (-> & _). by apply IH.
      * rewrite lookup_insert_ne in Hk by done. by apply IH.
    + destruct (decide (Workflow.id w' = k)) as [<-|Hne].
      * rewrite lookup_insert_eq in Hk. by injection Hk as <-.
      * rewrite lookup_insert_ne in Hk by done. by apply IH.
Qed.

Lemma stored_workflow_id_is_key_witness :
  ∃ w, activeWorkflows cancelled.1.2 !! "wf" = Some w ∧ Workflow.id w = "wf".
Proof.
  destruct (activeWorkflows cancelled.1.2 !! "wf") as [w|] eqn:Hw;
    [|by vm_compute in Hw].
  exists w. split; [done|].
  exact (stored_workflow_id_is_key cancelled.1.2 reachable_cancelled "wf" w Hw).
Defined.

(** X4. No operation registers or removes a listener, moves the clock or
    replaces the identifier source; it only draws identifiers and appends
    to the log of emissions. *)
Theorem perform_extends_world op o σ : extends σ (perform op o σ).2.
Proof.
  destruct op as [data|wid|wid|wid|wid|result]; simpl.
  - unfold createWorkflow.
    pose proof (extends_or_uuid (WorkflowInput.id data) σ) as H1.
    destruct (or_uuid _ σ) as [wid σa].
    pose proof (extends_createSteps (WorkflowInput.steps data) σa) as H2.
    destruct (createSteps _ σa) as [steps σb]. simpl in *.
    eauto using extends_trans, extends_publishEvent.
  - unfold startWorkflow. destruct (activeWorkflows o !! wid); [|apply extends_refl].
    match goal with |- context [executeAll ?o ?r ?w ?s] =>
      pose proof (extends_executeAll o r w s) as H;
      by destruct (executeAll o r w s) end.
  - unfold pauseWorkflow. destruct (activeWorkflows o !! wid); apply extends_refl.
  - unfold resumeWorkflow. destruct (activeWorkflows o !! wid); [|apply extends_refl].
    match goal with |- context [executeAll ?o ?r ?w ?s] =>
      pose proof (extends_executeAll o r w s) as H;
      by destruct (executeAll o r w s) end.
  - unfold cancelWorkflow. destruct (activeWorkflows o !! wid);
      [apply extends_publishEvent | apply extends_refl].
  - destruct (handleTaskResult_dichotomy result o σ)
      as [-> | (wid & w & i & step & Hres)]; [apply extends_refl|].
    rewrite (handleTaskResult_resolved _ _ _ _ _ _ _ Hres). cbn zeta.
    pose proof (extends_fanOut o result step (recorded result i w) σ) as H.
    destruct (forallb settled _); simpl; [|done].
    eauto using extends_trans, extends_publishEvent.
Qed.

(** ** Workflows at rest *)

(** With every step settled the fan-out has nothing to run. *)
Lemma fanOut_settled o result step w σ :
  forallb settled (Workflow.steps w) = true →
  fanOut o result step w σ = (w, σ).
Proof.
  intros Hall. unfold fanOut. destruct (AgentResult.success result); [|done].
  unfold dependents, filter_refs. rewrite filter_from_none; [done|].
  intros s Hs. apply list_elem_of_lookup in Hs as [j Hs].
  rewrite (settled_not_pending s (forallb_lookup _ _ _ _ Hall Hs)).
  by rewrite andb_false_r.
Qed.

Lemma perform_quiescent op o σ :
  map_Forall (λ _ w, terminal (Workflow.status w) → quiescent w) (activeWorkflows o) →
  map_Forall (λ _ w, terminal (Workflow.status w) → quiescent w)
    (activeWorkflows (perform op o σ).1.2).
Proof.
  intros Hinv.
  assert (∀ k w', ¬ terminal (Workflow.status w') →
            map_Forall (λ _ w, terminal (Workflow.status w) → quiescent w)
              (activeWorkflows (store k w' o))) as Hlive.
  { intros k w' Hnt. apply map_Forall_insert_2; [by intros ?|done]. }
  destruct op as [data|wid|wid|wid|wid|result]; simpl.
  - unfold createWorkflow.
    destruct (or_uuid _ σ) as [wid σa]. destruct (createSteps _ σa) as [steps σb].
    apply Hlive. intros [H|H]; discriminate.
  - unfold startWorkflow. destruct (activeWorkflows o !! wid) as [w|]; [|done].
    run_loop w2 σ2 R. simpl in R. apply Hlive. rewrite (retouched_status _ _ R).
    intros [H|H]; discriminate.
  - unfold pauseWorkflow. destruct (activeWorkflows o !! wid) as [w|]; [|done].
    apply Hlive. intros [H|H]; discriminate.
  - unfold resumeWorkflow. destruct (activeWorkflows o !! wid) as [w|]; [|done].
    run_loop w2 σ2 R. simpl in R. apply Hlive. rewrite (retouched_status _ _ R).
    intros [H|H]; discriminate.
  - destruct (activeWorkflows o !! wid) as [w|] eqn:Hw.
    + rewrite (cancelWorkflow_found o σ wid w Hw). simpl.
      apply map_Forall_insert_2; [|done]. intros _. split; [|done]. simpl.
      apply forallb_forall.
      intros s (x & -> & _)%list_elem_of_In%list_elem_of_fmap.
      apply cancelledStep_settled.
    + unfold cancelWorkflow. by rewrite Hw.
  - destruct (handleTaskResult_dichotomy result o σ)
      as [-> | (wid & w & i & step & Hres)]; [done|].
    rewrite (handleTaskResult_resolved _ _ _ _ _ _ _ Hres). cbn zeta.
    destruct Hres as (_ & _ & _ & _ & Hsome & _).
    pose proof (fanOut_retouched o result step (recorded result i w) σ) as R.
    pose proof (fanOut_settled o result step (recorded result i w) σ) as Hrest.
    set (r := fanOut o result step (recorded result i w) σ) in *.
    destruct (forallb settled (Workflow.steps r.1)) eqn:Hall; simpl.
    + apply map_Forall_insert_2; [|done]. intros _. split; [done|].
      change (Workflow.status (concluded r.2 r.1))
        with (if anyFailed r.1 then WorkflowStatus.failed
              else WorkflowStatus.completed).
      change (anyFailed (concluded r.2 r.1)) with (anyFailed r.1).
      by destruct (anyFailed r.1).
    + apply map_Forall_insert_2; [|done].
      rewrite (retouched_status _ _ R). intros Hterm. exfalso.
      destruct (Hinv wid w Hsome Hterm) as [Hsettled _].
      pose proof (recorded_settled result i w Hsettled) as Hrec.
      rewrite (Hrest Hrec) in Hall. simpl fst in Hall. congruence.
Qed.

(** X5. In every orchestrator a program can reach, a stored workflow whose
    status is completed or failed has no pending and no in-progress step,
    and a completed one has no failed step. *)
Theorem terminal_workflows_are_quiescent o :
  reachable o →
  ∀ k w, activeWorkflows o !! k = Some w →
    (Workflow.status w = WorkflowStatus.completed
     ∨ Workflow.status w = WorkflowStatus.failed →
     ∀ s, s ∈ Workflow.steps w →
       WorkflowStep.status s ≠ WorkflowStepStatus.PENDING
       ∧ WorkflowStep.status s ≠ WorkflowStepStatus.IN_PROGRESS)
    ∧ (Workflow.status w = WorkflowStatus.completed →
       ∀ s, s ∈ Workflow.steps w →
         WorkflowStep.status s ≠ WorkflowStepStatus.FAILED).
Proof.
  intros Hreach.
  assert (map_Forall (λ _ w, terminal (Workflow.status w) → quiescent w)
            (activeWorkflows o)) as Hinv.
  { induction Hreach as [id name description | o σ _ IH | o op σ _ IH].
    - intros k w Hk. simpl in Hk. by rewrite lookup_empty in Hk.
    - by rewrite initialize_store.
    - by apply perform_quiescent. }
  intros k w Hk. split.
  - intros Hterm s Hs. destruct (Hinv k w Hk Hterm) as [Hall _].
    rewrite forallb_forall in Hall. specialize (Hall s).
    rewrite <- list_elem_of_In in Hall. specialize (Hall Hs).
    unfold settled in Hall. by destruct (WorkflowStep.status s).
  - intros Hc s Hs Hfailed.
    destruct (Hinv k w Hk (or_introl Hc)) as [_ Hnone]. specialize (Hnone Hc).
    unfold anyFailed in Hnone.
    assert (existsb (λ s, bool_decide (WorkflowStep.status s = WorkflowStepStatus.FAILED))
              (Workflow.steps w) = true) as Hex; [|congruence].
    apply existsb_exists. exists s. split; [by apply list_elem_of_In|].
    by apply bool_decide_eq_true.
Qed.

Lemma terminal_workflows_are_quiescent_witness :
  ∃ w, activeWorkflows cancelled.1.2 !! "wf" = Some w
       ∧ Workflow.status w = WorkflowStatus.failed
       ∧ ∀ s, s ∈ Workflow.steps w →
           WorkflowStep.status s ≠ WorkflowStepStatus.PENDING
           ∧ WorkflowStep.status s ≠ WorkflowStepStatus.IN_PROGRESS.
Proof.
  eexists. split; [vm_compute; reflexivity|]. split; [reflexivity|].
  apply (terminal_workflows_are_quiescent cancelled.1.2 reachable_cancelled "wf").
  - vm_compute. reflexivity.
  - right. reflexivity.
Defined.

(** ** Steps that can never run *)

Lemma dangling_evolved w w' s s' :
  evolved w w' → sameStep s s' → dangling w' s' → dangling w s.
Proof.
  intros (_ & _ & _ & _ & _ & F) (_ & _ & _ & _ & _ & Hdeps) (d & Hd & Hnone).
  exists d. split; [congruence|].
  intros x Hx Hid. apply list_elem_of_lookup in Hx as [j Hj].
  destruct (Forall2_lookup_l _ _ _ _ _ F Hj) as (x' & Hj' & Hsame).
  apply (Hnone x'); [apply list_elem_of_lookup; eauto|].
  destruct Hsame as (-> & _). done.
Qed.

Lemma dangling_not_completed w s :
  dangling w s → dependenciesCompleted w s → False.
Proof.
  intros (d & Hd & Hnone) Hall. destruct (Hall d Hd) as (x & Hx & Hid & _).
  by apply (Hnone x).
Qed.

(** X6. In every orchestrator a program can reach, a step with a
    dependency that names no step of its workflow is never in progress:
    no start, resume or result ever dispatches it. *)
Theorem dangling_step_never_in_progress o :
  reachable o →
  ∀ k w j s,
    activeWorkflows o !! k = Some w →
    Workflow.steps w !! j = Some s →
    dangling w s →
    WorkflowStep.status s ≠ WorkflowStepStatus.IN_PROGRESS.
Proof.
  induction 1 as [id name description | o σ _ IH | o op σ _ IH];
    intros k w' j s' Hk Hj Hdangling Hrunning.
  - simpl in Hk. by rewrite lookup_empty in Hk.
  - rewrite initialize_store in Hk. by apply (IH k w' j s').
  - assert (∀ w s, activeWorkflows o !! k = Some w →
                   Workflow.steps w !! j = Some s →
                   WorkflowStep.status s ≠ WorkflowStepStatus.IN_PROGRESS) as Hbefore.
    { intros w s Hw Hs.
      destruct (perform_written op o σ)
        as [E | [(k0 & w0 & w0' & Hk0 & Hev & E) | (data & wn & _ & _ & Hpend & E)]];
        rewrite E in Hk; simpl in Hk.
      - assert (w = w') as -> by congruence.
        assert (s = s') as -> by congruence. eauto.
      - destruct (decide (k0 = k)) as [->|Hne].
        + rewrite lookup_insert_eq in Hk. injection Hk as ->.
          assert (w0 = w) as -> by congruence.
          apply (IH k w j s Hw Hs).
          pose proof Hev as (_ & _ & _ & _ & _ & F).
          destruct (Forall2_lookup_l _ _ _ _ _ F Hs) as (x & Hx & Hsame).
          assert (x = s') as -> by congruence.
          by eapply dangling_evolved.
        + rewrite lookup_insert_ne in Hk by done.
          assert (w = w') as -> by congruence.
          assert (s = s') as -> by congruence. eauto.
      - destruct (decide (Workflow.id wn = k)) as [<-|Hne].
        + rewrite lookup_insert_eq in Hk. injection Hk as ->.
          rewrite Forall_lookup in Hpend. specialize (Hpend j s' Hj). congruence.
        + rewrite lookup_insert_ne in Hk by done.
          assert (w = w') as -> by congruence.
          assert (s = s') as -> by congruence. eauto. }
    apply (dangling_not_completed w' s' Hdangling).
    by apply (perform_in_progress op o σ k w' j s').
Qed.

Lemma reachable_orphanAdvanced : reachable orphanAdvanced.1.2.
Proof.
  unfold orphanAdvanced, orphanStarted, orphanCreated, booted.
  repeat first [apply reachable_perform | apply reachable_initialize].
  apply reachable_new.
Defined.

(** Step [b] waits for [ghost]; after [a] has completed it is still
    pending. *)
Lemma dangling_step_never_in_progress_witness :
  ∃ w s,
    activeWorkflows orphanAdvanced.1.2 !! "orphan" = Some w
    ∧ Workflow.steps w !! 1 = Some s
    ∧ WorkflowStep.dependsOn s = ["ghost"]
    ∧ WorkflowStep.status s ≠ WorkflowStepStatus.IN_PROGRESS.
Proof.
  eexists _, _. split; [vm_compute; reflexivity|].
  split; [reflexivity|]. split; [reflexivity|].
  eapply (dangling_step_never_in_progress _ reachable_orphanAdvanced "orphan" _ 1).
  - vm_compute. reflexivity.
  - reflexivity.
  - exists "ghost". split; [by left|].
    intros s Hs. simpl in Hs.
    repeat (apply elem_of_cons in Hs as [-> | Hs]; [discriminate|]).
    by apply elem_of_nil in Hs.
Defined.

(** ** Workflows that are not active *)





(** ** Cancelling again *)

Lemma cancelledStep_idempotent s : cancelledStep (cancelledStep s) = cancelledStep s.
Proof. unfold cancelledStep. by destruct s as [? ? ? ? [] ? ? ?]. Qed.

(** X8. Cancelling a workflow a second time changes none of its steps:
    the workflow is stored as failed again with the same steps, its
    completion time is stamped anew and [workflow:cancelled] is published
    once more. *)
Theorem cancelWorkflow_twice o σ σ' workflowId workflow :
  activeWorkflows o !! workflowId = Some workflow →
  ∃ once twice,
    let o1 := (cancelWorkflow workflowId o σ).1.2 in
    activeWorkflows o1 !! workflowId = Some once
    ∧ cancelWorkflow workflowId o1 σ'
      = (Resolved (), store workflowId twice o1,
         publishEvent "workflow:cancelled" (WorkflowRef (Workflow.id workflow)) σ')
    ∧ Workflow.steps twice = Workflow.steps once
    ∧ Workflow.status twice = WorkflowStatus.failed
    ∧ Workflow.completedAt twice = Some (now σ').
Proof.
  intros Hsome. rewrite (cancelWorkflow_found o σ workflowId workflow Hsome).
  cbn zeta. simpl fst. simpl snd.
  set (once := Workflow.with_steps _ _).
  assert (activeWorkflows (store workflowId once o) !! workflowId = Some once)
    as Honce by apply lookup_insert_eq.
  eexists once, _. split; [exact Honce|].
  split; [exact (cancelWorkflow_found _ σ' workflowId once Honce)|].
  simpl. split_and!; [|done..].
  rewrite <- list_fmap_compose. apply list_fmap_ext.
  intros _ s _. apply cancelledStep_idempotent.
Qed.

Lemma cancelWorkflow_twice_witness :
  ∃ once twice,
    activeWorkflows cancelled.1.2 !! "wf" = Some once
    ∧ activeWorkflows (cancelWorkflow "wf" cancelled.1.2 cancelled.2).1.2 !! "wf"
      = Some twice
    ∧ Workflow.steps twice = Workflow.steps once.
Proof.
  edestruct (cancelWorkflow_twice started.1.2 started.2 cancelled.2 "wf")
    as (once & twice & Honce & Hrun & Hsteps & _).
  { vm_compute. reflexivity. }
  exists once, twice. split; [exact Honce|]. split; [|exact Hsteps].
  change (cancelWorkflow "wf" started.1.2 started.2) with cancelled in Hrun.
  rewrite Hrun. apply lookup_insert_eq.
Defined.

(** ** Who is dispatched *)










(** ** When a workflow concludes *)

Lemma executeAll_tasks o refs w σ :
  ∃ tasks, emitted (executeAll o refs w σ).2 = emitted σ ++ tasks
           ∧ forallb isTask tasks = true.
Proof.
  revert w σ. induction refs as [|j refs IH]; intros w σ.
  - exists []. simpl. by rewrite app_nil_r.
  - rewrite executeAll_cons.
    destruct (executeWorkflowStep_cases o w j σ)
      as [E | (step & _ & _ & _ & [[_ E] | [_ E]])]; rewrite E; cbn [fst snd];
      [apply IH | apply IH |].
    destruct (IH (Workflow.update_step
                    (WorkflowStep.with_status WorkflowStepStatus.IN_PROGRESS) j w)
                 (dispatch w step σ)) as (tasks & Hem & Htasks).
    assert (∃ e, emitted (dispatch w step σ) = emitted σ ++ [e]) as [e He]
      by by eexists.
    destruct (stepIdOf_dispatch w step σ e He) as (He1 & _ & _).
    exists (e :: tasks). rewrite Hem, He, <- app_assoc. simpl. by rewrite He1.
Qed.

(** X11. A result that resolves to a stored step concludes the workflow
    exactly when it leaves every step completed, failed or skipped: then
    the workflow is stored as failed if some step is failed and as
    completed otherwise, its completion time is set to the current time,
    and one [workflow:completed] event carrying that outcome is published
    after the dispatched tasks. Otherwise the workflow keeps its status
    and completion time and only tasks are published. *)
Theorem result_concludes_when_all_steps_settled
    result o σ workflowId workflow i step :
  resolvesTo result o workflowId workflow i step →
  ∃ workflow' σ' tasks notice,
    handleTaskResult result o σ = (Resolved (), store workflowId workflow' o, σ')
    ∧ emitted σ' = emitted σ ++ tasks ++ notice
    ∧ forallb isTask tasks = true
    ∧ if forallb settled (Workflow.steps workflow') then
        Workflow.status workflow'
        = (if anyFailed workflow' then WorkflowStatus.failed
           else WorkflowStatus.completed)
        ∧ Workflow.completedAt workflow' = Some (now σ)
        ∧ notice = [completionNotice σ workflow']
      else
        Workflow.status workflow' = Workflow.status workflow
        ∧ Workflow.completedAt workflow' = Workflow.completedAt workflow
        ∧ notice = [].
Proof.
  intros Hres.
  rewrite (handleTaskResult_resolved _ _ _ _ _ _ _ Hres). cbn zeta.
  pose proof (fanOut_retouched o result step (recorded result i workflow) σ) as R.
  pose proof (extends_fanOut o result step (recorded result i workflow) σ)
    as (Hlisteners & Hclock & _ & _ & _).
  assert (∃ tasks,
            emitted (fanOut o result step (recorded result i workflow) σ).2
            = emitted σ ++ tasks ∧ forallb isTask tasks = true)
    as (tasks & Hem & Htasks).
  { unfold fanOut. destruct (AgentResult.success result);
      [apply executeAll_tasks|]. exists []. simpl. by rewrite app_nil_r. }
  set (r := fanOut o result step (recorded result i workflow) σ) in *.
  destruct (forallb settled (Workflow.steps r.1)) eqn:Hall.
  - eexists (concluded r.2 r.1), _, tasks, [completionNotice σ (concluded r.2 r.1)].
    split; [reflexivity|]. simpl. rewrite Hem, <- app_assoc.
    split; [|split; [done|]].
    + unfold completionNotice, listenersOf. simpl. by rewrite Hlisteners.
    + rewrite Hall. unfold now. by rewrite Hclock.
  - exists r.1, r.2, tasks, []. split; [reflexivity|].
    rewrite app_nil_r, Hall.
    rewrite (retouched_status _ _ R), (retouched_completedAt _ _ R). done.
Qed.

(** The only step of a started one-step workflow completes. *)
Lemma result_concludes_when_all_steps_settled_witness :
  ∃ workflow' σ' tasks,
    handleTaskResult (resultFor "s1" true) singleStarted.1.2 singleStarted.2
    = (Resolved (), store "wf" workflow' singleStarted.1.2, σ')
    ∧ emitted σ'
      = emitted singleStarted.2 ++ tasks
        ++ [completionNotice singleStarted.2 workflow']
    ∧ Workflow.status workflow' = WorkflowStatus.completed.
Proof.
  edestruct (λ w, result_concludes_when_all_steps_settled
                    (resultFor "s1" true) singleStarted.1.2 singleStarted.2
                    "wf" w 0 runningStep)
    as (w' & σ' & tasks & notice & Hrun & Hem & _ & Hcases).
  { unfold resolvesTo.
    split_and!; [reflexivity | discriminate | | | vm_compute; reflexivity
                | vm_compute; reflexivity]; [reflexivity | discriminate]. }
  assert (w' = default w' (activeWorkflows
            (handleTaskResult (resultFor "s1" true)
               singleStarted.1.2 singleStarted.2).1.2 !! "wf")) as Hw'.
  { rewrite Hrun. unfold store. cbn [fst snd activeWorkflows].
    by rewrite lookup_insert_eq. }
  assert (forallb settled (Workflow.steps w') = true
          ∧ anyFailed w' = false) as [Hall Hnone].
  { rewrite Hw'. split; vm_compute; reflexivity. }
  rewrite Hall, Hnone in Hcases. destruct Hcases as (Hstatus & _ & ->).
  exists w', σ', tasks. by split_and!.
Defined.

(** ** Creating a workflow *)

Lemma createSteps_spec l σ :
  Forall2 createdFrom l (createSteps l σ).1
  ∧ drawn (createSteps l σ).2
    = drawn σ + length (List.filter (λ d, falsy (StepInput.id d)) l)
  ∧ emitted (createSteps l σ).2 = emitted σ
  ∧ listeners (createSteps l σ).2 = listeners σ
  ∧ clock (createSteps l σ).2 = clock σ
  ∧ entropy (createSteps l σ).2 = entropy σ.
Proof.
  revert σ. induction l as [|d l IH]; intros σ.
  - simpl. split_and!; first [done | constructor | lia].
  - cbn [createSteps List.filter]. unfold createStep.
    destruct (or_uuid (StepInput.id d) σ) as [sid σa] eqn:Hor.
    destruct (IH σa) as (F & Hdrawn & Hem & Hl & Hc & He).
    destruct (createSteps l σa) as [ss σb]. cbn [fst snd] in *.
    unfold or_uuid in Hor.
    destruct (falsy (StepInput.id d)) eqn:Hid; injection Hor as <- <-;
      simpl in *; (split_and!; [|lia|done..]);
      (constructor; [|done]); unfold createdFrom; simpl; split_and!; try done.
    + intros ?. congruence.
    + intros _. by destruct (StepInput.id d).
Qed.

(** X12. Creating a workflow always resolves and stores, under the
    workflow's identifier and whatever was stored there before, an active
    workflow without completion time whose steps are those of the input
    in the same order, all pending and without result, with absent
    configuration and dependencies defaulted to empty. Identifiers given
    in the input are kept; one identifier is drawn for each that is
    absent or empty, the workflow's first. Exactly one event is published:
    [workflow:created] with the stored workflow's identifier. *)
Theorem createWorkflow_stores_pending_workflow data o σ :
  ∃ w σ',
    createWorkflow data o σ = (Resolved (), store (Workflow.id w) w o, σ')
    ∧ (if falsy (WorkflowInput.id data)
       then Workflow.id w = entropy σ (drawn σ)
       else WorkflowInput.id data = Some (Workflow.id w))
    ∧ Workflow.name w = WorkflowInput.name data
    ∧ Workflow.description w = WorkflowInput.description data
    ∧ Workflow.data w = default ∅ (WorkflowInput.data data)
    ∧ Workflow.status w = WorkflowStatus.active
    ∧ Workflow.completedAt w = None
    ∧ Workflow.createdAt w = now σ
    ∧ Forall2 createdFrom (WorkflowInput.steps data) (Workflow.steps w)
    ∧ drawn σ' = drawn σ + missingIds data
    ∧ emitted σ'
      = emitted σ
        ++ [{| topic := "workflow:created";
               payload := WorkflowRef (Workflow.id w);
               delivered := listenersOf "workflow:created" σ |}].
Proof.
  unfold createWorkflow, missingIds.
  destruct (or_uuid (WorkflowInput.id data) σ) as [wid σa] eqn:Hor.
  destruct (createSteps_spec (WorkflowInput.steps data) σa)
    as (F & Hdrawn & Hem & Hl & Hc & _).
  destruct (createSteps _ σa) as [steps σb]. cbn [fst snd] in *.
  eexists (Workflow.Build _ _ _ steps _ _ _ _ _), _.
  split; [reflexivity|]. simpl. unfold now, listenersOf.
  rewrite Hc, Hem, Hl, Hdrawn. unfold or_uuid in Hor.
  destruct (falsy (WorkflowInput.id data)) eqn:Hid; injection Hor as <- <-;
    simpl; split_and!; try done; try lia.
  by destruct (WorkflowInput.id data).
Qed.

(** ** The registry of handlers *)

Lemma initialize_agents o σ :
  agents (initialize o σ).1.2
  = <[AgentType.DOCUMENT :=
        initialAgent SpecializedAgent.DocumentAgent
          (entropy σ (S (S (S (drawn σ)))))]>
      (<[AgentType.BILLING :=
           initialAgent SpecializedAgent.BillingAgent (entropy σ (S (S (drawn σ))))]>
         (<[AgentType.SCHEDULING :=
              initialAgent SpecializedAgent.SchedulingAgent (entropy σ (S (drawn σ)))]>
            (<[AgentType.CUSTOMER_SERVICE :=
                 initialAgent SpecializedAgent.CustomerServiceAgent
                   (entropy σ (drawn σ))]>
               (agents o)))).
Proof. reflexivity. Qed.

(** X13. [initialize] always resolves. Afterwards each of the four
    handler types other than the orchestrator's own has a registered,
    idle agent of that type whose [handleTask] listens on the type's task
    topic; the entry of the orchestrator's own type and the workflow
    store are as before. On a bus that had no listener, the task topic of
    a registered type reaches that agent's [handleTask] and no other
    listener. *)
Theorem initialize_registers_handlers o σ :
  ∃ o' σ',
    initialize o σ = (Resolved (), o', σ')
    ∧ (∀ ty, ty ≠ AgentType.WORKFLOW →
         ∃ a, agents o' !! ty = Some a
              ∧ SpecializedAgent.type a = ty
              ∧ SpecializedAgent.status a = AgentStatus.IDLE
              ∧ {| owner := SpecializedAgent.id a; method := handleTask_m |}
                ∈ listenersOf ("task:" +:+ AgentType.value ty) σ'
              ∧ (listeners σ = [] →
                 listenersOf ("task:" +:+ AgentType.value ty) σ'
                 = [{| owner := SpecializedAgent.id a; method := handleTask_m |}]))
    ∧ agents o' !! AgentType.WORKFLOW = agents o !! AgentType.WORKFLOW
    ∧ activeWorkflows o' = activeWorkflows o.
Proof.
  exists (initialize o σ).1.2, (initialize o σ).2. split; [reflexivity|].
  pose proof (initialize_listeners o σ) as HL.
  pose proof (initialize_agents o σ) as HA.
  split; [|split; [|done]].
  - intros ty Hty. rewrite HA. unfold listenersOf. rewrite HL.
    destruct ty; [| | | |done];
      rewrite ?lookup_insert_ne by discriminate; rewrite lookup_insert_eq;
      (eexists; split; [reflexivity|]);
      (split; [reflexivity|]); (split; [reflexivity|]);
      (split; [|intros ->; reflexivity]);
      rewrite filter_app, fmap_app; apply elem_of_app; right;
      vm_compute; apply list_elem_of_here.
  - rewrite HA. by rewrite !lookup_insert_ne.
Qed.

Lemma initialize_registers_handlers_witness :
  ∃ a, agents booted !! AgentType.BILLING = Some a
       ∧ SpecializedAgent.type a = AgentType.BILLING
       ∧ listenersOf "task:billing" σ1
         = [{| owner := SpecializedAgent.id a; method := handleTask_m |}].
Proof.
  destruct (initialize_registers_handlers fresh σ0)
    as (o' & σ' & Hrun & Hreg & _).
  destruct (Hreg AgentType.BILLING) as (a & Ha & Hty & _ & _ & Honly);
    [discriminate|].
  assert (o' = booted ∧ σ' = σ1) as [-> ->].
  { unfold booted, σ1. by rewrite Hrun. }
  exists a. split_and!; [exact Ha | exact Hty | by apply Honly].
Defined.

(** ** Results of the concrete agents *)

(** X14. Whatever the task, each of the four concrete agents publishes a
    successful result that names the task and carries no workflow id and
    no step id, also when the task's data carried both; handed to the
    orchestrator's result listener, such a result changes nothing. *)
Theorem concrete_agent_results_are_uncorrelated c task a σ o σ' :
  ∃ e r,
    emittedSince σ
      (SpecializedAgent.handleTask (SpecializedAgent.execute c) task a σ).2 = [e]
    ∧ topic e = "result:" +:+ AgentTask.id task
    ∧ payload e = ResultPayload r
    ∧ AgentResult.success r = true
    ∧ AgentResult.taskId r = AgentTask.id task
    ∧ AgentResult.workflowId r = None
    ∧ AgentResult.stepId r = None
    ∧ handleTaskResult r o σ' = (Resolved (), o, σ').
Proof.
  eexists _, _. unfold emittedSince, SpecializedAgent.handleTask. simpl.
  rewrite drop_app_length. by split_and!.
Qed.

Lemma createWorkflow_stores_pending_workflow_run data o σ :
  ∃ w σ',
    createWorkflow data o σ = (Resolved (), store (Workflow.id w) w o, σ')
    ∧ (if falsy (WorkflowInput.id data)
       then Workflow.id w = entropy σ (drawn σ)
       else WorkflowInput.id data = Some (Workflow.id w))
    ∧ drawn σ' = drawn σ + missingIds data
    ∧ entropy σ' = entropy σ.
Proof.
  unfold createWorkflow, missingIds in *.
  destruct (or_uuid (WorkflowInput.id data) σ) as [wid σa] eqn:Hor.
  destruct (createSteps_spec (WorkflowInput.steps data) σa)
    as (F & Hdrawn & Hem & Hl & Hc & He).
  destruct (createSteps _ σa) as [steps σb]. cbn [fst snd] in *.
  eexists (Workflow.Build _ _ _ steps _ _ _ _ _), _.
  split; [reflexivity|]. simpl. rewrite Hdrawn, He. unfold or_uuid in Hor.
  destruct (falsy (WorkflowInput.id data)) eqn:Hid; injection Hor as <- <-;
    simpl in *; split_and!; try done; try lia.
  by destruct (WorkflowInput.id data).
Qed.

(** ** The orchestrator's task interface *)

Lemma perform_agents op o σ : agents (perform op o σ).1.2 = agents o.
Proof.
  destruct (perform_written op o σ)
    as [-> | [(k & w & w' & _ & _ & ->) | (data & w' & _ & _ & _ & ->)]]; done.
Qed.

Lemma startWorkflow_status s workflowId o σ :
  startWorkflow workflowId (WorkflowOrchestratorAgent.with_status s o) σ
  = ((startWorkflow workflowId o σ).1.1,
     WorkflowOrchestratorAgent.with_status s (startWorkflow workflowId o σ).1.2,
     (startWorkflow workflowId o σ).2).
Proof.
  unfold startWorkflow. simpl.
  destruct (activeWorkflows o !! workflowId) as [w|]; [|done].
  change (executeAll (WorkflowOrchestratorAgent.with_status s o))
    with (executeAll o).
  by destruct (executeAll o _ _ σ).
Qed.

Lemma startWorkflow_rejected workflowId o σ e o' σ' :
  startWorkflow workflowId o σ = (Rejected e, o', σ') →
  activeWorkflows o !! workflowId = None ∧ o' = o ∧ σ' = σ.
Proof.
  unfold startWorkflow. destruct (activeWorkflows o !! workflowId) as [w|].
  - by destruct (executeAll _ _ _ _).
  - by intros [= _ <- <-].
Qed.

Lemma createWorkflow_status s data o σ :
  createWorkflow data (WorkflowOrchestratorAgent.with_status s o) σ
  = ((createWorkflow data o σ).1.1,
     WorkflowOrchestratorAgent.with_status s (createWorkflow data o σ).1.2,
     (createWorkflow data o σ).2).
Proof.
  unfold createWorkflow. destruct (or_uuid _ σ) as [wid σa].
  by destruct (createSteps _ σa).
Qed.

Lemma createWorkflow_resolves data o σ :
  (createWorkflow data o σ).1.1 = Resolved ().
Proof.
  unfold createWorkflow. destruct (or_uuid _ σ) as [wid σa].
  by destruct (createSteps _ σa).
Qed.

(** X15. Whatever task [execute] is given, it returns a result for that
    task and leaves the orchestrator idle with its registry untouched.
    When the result reports a failure it carries an error message, and
    nothing else happened: the workflow store and the process are as
    before. *)
Theorem execute_failure_changes_nothing task o σ r o' σ' :
  OrchestratorTasks.execute task o σ = Some (r, o', σ') →
  AgentResult.taskId r = AgentTask.id task
  ∧ OrchestratorTasks.getStatus o' = AgentStatus.IDLE
  ∧ agents o' = agents o
  ∧ (AgentResult.success r = false →
     is_Some (AgentResult.error r)
     ∧ activeWorkflows o' = activeWorkflows o ∧ σ' = σ).
Proof.
  unfold OrchestratorTasks.execute. intros Hrun.
  apply bind_Some in Hrun as ([[outcome o1] σ1] & Hbranch & Hrun).
  assert (agents o1 = agents o
          ∧ match outcome with
            | Resolved result =>
                AgentResult.taskId result = AgentTask.id task
                ∧ AgentResult.success result = true
            | Rejected _ => activeWorkflows o1 = activeWorkflows o ∧ σ1 = σ
            end) as [Hagents Hout].
  { repeat case_bool_decide.
    - unfold OrchestratorTasks.handleCreateWorkflow in Hbranch.
      apply bind_Some in Hbranch as (d & _ & Hbranch).
      pose proof (createWorkflow_resolves d
                    (WorkflowOrchestratorAgent.with_status AgentStatus.WORKING o) σ)
        as Hres.
      pose proof (perform_agents (Create d)
                    (WorkflowOrchestratorAgent.with_status AgentStatus.WORKING o) σ)
        as Hag.
      simpl in Hag.
      destruct (createWorkflow d _ σ) as [[c oc] σc]. simpl in Hres, Hag. subst c.
      destruct (or_uuid _ σc) as [wid σd]. injection Hbranch as <- <- <-.
      by split.
    - unfold OrchestratorTasks.handleExecuteWorkflow in Hbranch.
      apply bind_Some in Hbranch as ([wid|] & _ & Hbranch).
      + rewrite startWorkflow_status in Hbranch.
        pose proof (perform_agents (Start wid) o σ) as Hag.
        simpl in Hag.
        destruct (startWorkflow wid o σ) as [[c oc] σc] eqn:Hstart.
        simpl in Hbranch, Hag. destruct c as [[]|e].
        * injection Hbranch as <- <- <-. by split.
        * injection Hbranch as <- <- <-.
          apply startWorkflow_rejected in Hstart as (_ & -> & ->). by split.
      + injection Hbranch as <- <- <-. by split.
    - unfold OrchestratorTasks.handleUpdateWorkflow in Hbranch.
      apply bind_Some in Hbranch as ([wid|] & _ & Hbranch).
      + simpl in Hbranch. destruct (activeWorkflows o !! wid) as [w|].
        * apply bind_Some in Hbranch as (n & _ & Hbranch).
          apply bind_Some in Hbranch as (ds & _ & Hbranch).
          apply bind_Some in Hbranch as (b & _ & Hbranch).
          injection Hbranch as <- <- <-. by split.
        * injection Hbranch as <- <- <-. by split.
      + injection Hbranch as <- <- <-. by split.
    - injection Hbranch as <- <- <-. by split. }
  destruct outcome as [result|e]; injection Hrun as <- <- <-; simpl.
  - destruct Hout as [-> ->]. by split_and!.
  - destruct Hout as [-> ->]. by split_and!.
Qed.

(** A request to start a workflow that is not stored. *)
Lemma execute_failure_changes_nothing_witness :
  ∃ r o' σ',
    OrchestratorTasks.execute unknownRequest created.1.2 created.2
    = Some (r, o', σ')
    ∧ AgentResult.success r = false
    ∧ AgentResult.error r = Some "Workflow not found: nope"
    ∧ activeWorkflows o' = activeWorkflows created.1.2
    ∧ σ' = created.2.
Proof.
  destruct (OrchestratorTasks.execute unknownRequest created.1.2 created.2)
    as [[[r o'] σ']|] eqn:Hrun; [|by vm_compute in Hrun].
  assert (AgentResult.success r = false
          ∧ AgentResult.error r = Some "Workflow not found: nope") as [Hko Herr].
  { pose proof Hrun as Hrun'. vm_compute in Hrun'. by injection Hrun' as <- _ _. }
  destruct (execute_failure_changes_nothing _ _ _ _ _ _ Hrun)
    as (_ & _ & _ & Hsame).
  destruct (Hsame Hko) as (_ & Hstore & Hworld).
  exists r, o', σ'. by split_and!.
Defined.

(** X16. A task of type [execute_workflow] naming a workflow does to the
    workflow store and to the process exactly what [startWorkflow] does
    with that identifier. It reports success, echoing the identifier,
    when the workflow is stored, and otherwise reports the failure
    [Workflow not found: <id>] instead of rejecting. *)
Theorem execute_workflow_is_startWorkflow task o σ workflowId :
  AgentTask.type task = "execute_workflow" →
  AgentTask.data task !! "workflowId" = Some (VString workflowId) →
  ∃ r o' σ',
    OrchestratorTasks.execute task o σ = Some (r, o', σ')
    ∧ activeWorkflows o' = activeWorkflows (startWorkflow workflowId o σ).1.2
    ∧ σ' = (startWorkflow workflowId o σ).2
    ∧ match activeWorkflows o !! workflowId with
      | Some _ =>
          AgentResult.success r = true
          ∧ AgentResult.data r !! "workflowId" = Some (VString workflowId)
      | None =>
          AgentResult.success r = false
          ∧ AgentResult.error r = Some ("Workflow not found: " +:+ workflowId)
      end.
Proof.
  intros Hty Hid. unfold OrchestratorTasks.execute.
  rewrite Hty. simpl.
  unfold OrchestratorTasks.handleExecuteWorkflow, OrchestratorTasks.readString.
  rewrite Hid. simpl. rewrite startWorkflow_status.
  unfold startWorkflow.
  destruct (activeWorkflows o !! workflowId) as [w|]; simpl.
  - destruct (executeAll o _ _ σ) as [w2 σ2]. simpl.
    eexists _, _, _. split; [reflexivity|]. by split_and!.
  - eexists _, _, _. split; [reflexivity|]. by split_and!.
Qed.

Lemma execute_workflow_is_startWorkflow_witness :
  ∃ r o' σ',
    OrchestratorTasks.execute startRequest created.1.2 created.2
    = Some (r, o', σ')
    ∧ activeWorkflows o' = activeWorkflows started.1.2
    ∧ σ' = started.2
    ∧ AgentResult.success r = true.
Proof.
  destruct (execute_workflow_is_startWorkflow startRequest created.1.2 created.2
              "wf" eq_refl eq_refl)
    as (r & o' & σ' & Hrun & Hstore & Hworld & Hres).
  exists r, o', σ'. split_and!; [exact Hrun | exact Hstore | exact Hworld |].
  assert (is_Some (activeWorkflows created.1.2 !! "wf")) as [w Hw]
    by (vm_compute; by eexists).
  rewrite Hw in Hres. by destruct Hres.
Defined.

(** X17. A task of type [create_workflow] with a readable definition
    stores the workflow as [createWorkflow] does and reports success.
    When the definition gives an identifier, the result reports it. When
    it gives none, the workflow is stored under the first identifier
    drawn, but the result reports one drawn afterwards: with an
    identifier source that does not repeat itself, the reported
    identifier is not the one the workflow is stored under. *)
Theorem create_workflow_reports_another_id task o σ definition :
  AgentTask.type task = "create_workflow" →
  OrchestratorTasks.readDefinition (AgentTask.data task) = Some definition →
  ∃ r o' σ' reported,
    OrchestratorTasks.execute task o σ = Some (r, o', σ')
    ∧ activeWorkflows o' = activeWorkflows (createWorkflow definition o σ).1.2
    ∧ AgentResult.success r = true
    ∧ AgentResult.data r !! "workflowId" = Some (VString reported)
    ∧ if falsy (WorkflowInput.id definition) then
        is_Some (activeWorkflows o' !! entropy σ (drawn σ))
        ∧ reported = entropy σ (drawn σ + missingIds definition)
        ∧ ((∀ m n, entropy σ m = entropy σ n → m = n) →
           reported ≠ entropy σ (drawn σ))
      else
        WorkflowInput.id definition = Some reported
        ∧ is_Some (activeWorkflows o' !! reported).
Proof.
  intros Hty Hdef. unfold OrchestratorTasks.execute. rewrite Hty. simpl.
  unfold OrchestratorTasks.handleCreateWorkflow. rewrite Hdef. simpl.
  rewrite createWorkflow_status.
  destruct (createWorkflow_stores_pending_workflow_run definition o σ)
    as (w & σc & Hrun & Hid & Hdrawn & Hentropy).
  rewrite Hrun. unfold or_uuid. simpl.
  destruct (falsy (WorkflowInput.id definition)) eqn:Hfalsy; simpl.
  - eexists _, _, _, _. split; [reflexivity|]. simpl.
    split_and!; try done.
    + rewrite <- Hid, lookup_insert_eq. by eexists.
    + by rewrite Hentropy, Hdrawn.
    + intros Hinj Heq. rewrite Hentropy, Hdrawn in Heq. apply Hinj in Heq.
      unfold missingIds in Heq. rewrite Hfalsy in Heq. lia.
  - eexists _, _, _, _. split; [reflexivity|]. simpl.
    split_and!; try done.
    + rewrite Hid. by destruct (WorkflowInput.id definition).
    + assert (default "" (WorkflowInput.id definition) = Workflow.id w) as ->
        by by rewrite Hid.
      rewrite lookup_insert_eq. by eexists.
Qed.

(** A definition without identifiers: the workflow is stored under the
    fifth identifier drawn in this process and the result reports the
    seventh. *)
Lemma create_workflow_reports_another_id_witness :
  ∃ r o' σ',
    OrchestratorTasks.execute createRequest booted σ1 = Some (r, o', σ')
    ∧ is_Some (activeWorkflows o' !! "uuid-4")
    ∧ AgentResult.data r !! "workflowId" = Some (VString "uuid-6").
Proof.
  edestruct (create_workflow_reports_another_id createRequest booted σ1)
    as (r & o' & σ' & reported & Hrun & _ & _ & Hreported & Hcases);
    [reflexivity | vm_compute; reflexivity |].
  simpl in Hcases. destruct Hcases as (Hstored & -> & Hother).
  assert ("uuid-6" ≠ "uuid-4") as _.
  { apply Hother. intros m n Heq. simpl in Heq. injection Heq as Heq.
    by apply pretty_nat_inj in Heq. }
  exists r, o', σ'. split_and!; [exact Hrun | exact Hstored | exact Hreported].
Defined.

(** X18. A task of type [update_workflow] naming a stored workflow
    reports success and publishes nothing. The stored workflow keeps its
    identifier, steps, status and creation and completion times; its
    update time is the current time; its name and its description are
    replaced when the task gives a non-empty one; and its data is the
    old data overridden, key by key, by the data the task gives. *)
Theorem update_workflow_effect task o σ workflowId w name description data :
  AgentTask.type task = "update_workflow" →
  OrchestratorTasks.readString "workflowId" (AgentTask.data task)
  = Some (Some workflowId) →
  activeWorkflows o !! workflowId = Some w →
  OrchestratorTasks.readString "name" (AgentTask.data task) = Some name →
  OrchestratorTasks.readString "description" (AgentTask.data task)
  = Some description →
  OrchestratorTasks.readObject "data" (AgentTask.data task) = Some data →
  ∃ r o' w',
    OrchestratorTasks.execute task o σ = Some (r, o', σ)
    ∧ AgentResult.success r = true
    ∧ activeWorkflows o' = <[workflowId := w']> (activeWorkflows o)
    ∧ evolved_steps_kept w w'
    ∧ Workflow.updatedAt w' = now σ
    ∧ Workflow.name w'
      = (if falsy name then Workflow.name w else default "" name)
    ∧ Workflow.description w'
      = (if falsy description then Workflow.description w
         else default "" description)
    ∧ ∀ k, Workflow.data w' !! k
           = match data ≫= (.!! k) with
             | Some v => Some v
             | None => Workflow.data w !! k
             end.
Proof.
  intros Hty Hid Hw Hname Hdesc Hdata.
  unfold OrchestratorTasks.execute. rewrite Hty. simpl.
  unfold OrchestratorTasks.handleUpdateWorkflow.
  rewrite Hid. simpl. rewrite Hw, Hname, Hdesc, Hdata. simpl.
  eexists _, _, _. split; [reflexivity|]. simpl.
  split_and!; try done.
  intros k. destruct data as [b|]; simpl; [|done].
  rewrite lookup_union. by destruct (b !! k), (Workflow.data w !! k).
Qed.

Lemma update_workflow_effect_witness :
  ∃ r o' w w',
    OrchestratorTasks.execute renameRequest started.1.2 started.2
    = Some (r, o', started.2)
    ∧ activeWorkflows started.1.2 !! "wf" = Some w
    ∧ activeWorkflows o' !! "wf" = Some w'
    ∧ Workflow.name w' = "Renamed"
    ∧ Workflow.description w' = Workflow.description w
    ∧ Workflow.data w' !! "tier" = Some (VString "gold")
    ∧ Workflow.steps w' = Workflow.steps w.
Proof.
  edestruct (update_workflow_effect renameRequest started.1.2 started.2 "wf")
    as (r & o' & w' & Hrun & _ & Hstore & Hkept & _ & Hname & Hdesc & Hdata);
    [reflexivity | reflexivity | vm_compute; reflexivity
    | reflexivity | reflexivity | reflexivity |].
  eexists r, o', _, w'. split; [exact Hrun|]. split; [vm_compute; reflexivity|].
  split; [by rewrite Hstore, lookup_insert_eq|].
  split; [exact Hname|]. split; [exact Hdesc|].
  split; [by rewrite Hdata | by destruct Hkept as (_ & ? & _)].
Defined.

(** ** Without a handler *)




(** ** Listeners accumulate *)

(** X20. Each call of [initialize] appends one listener to each of the
    six event names the orchestrator subscribes to (its own bound method)
    and to each of the four task topics, keeping the listeners that were
    there; so initializing a second orchestrator on the same bus makes
    every task and lifecycle event reach two listeners. Every other event
    name, the notifications the orchestrator publishes and the result
    topic of a task among them, has the listeners it had before. *)
Theorem initialize_appends_listeners o σ :
  (∀ topic m, (topic, m) ∈ subscriptions →
     listenersOf topic (initialize o σ).2
     = listenersOf topic σ ++ [bound o m])
  ∧ (∀ topic, topic ∈ taskTopics →
       length (listenersOf topic (initialize o σ).2)
       = S (length (listenersOf topic σ)))
  ∧ (∀ topic, topic ∉ taskTopics → topic ∉ subscriptions.*1 →
       listenersOf topic (initialize o σ).2 = listenersOf topic σ).
Proof.
  pose proof (initialize_listeners o σ) as HL.
  unfold listenersOf. rewrite HL. split_and!.
  - intros topic m Hin. rewrite filter_app, fmap_app. f_equal.
    unfold subscriptions in Hin.
    repeat (apply elem_of_cons in Hin as [[= -> ->] | Hin]; [reflexivity|]).
    by apply elem_of_nil in Hin.
  - intros topic Hin. rewrite filter_app, fmap_app, length_app.
    rewrite Nat.add_comm. f_equal. unfold taskTopics in Hin. simpl in Hin.
    repeat (apply elem_of_cons in Hin as [-> | Hin]; [reflexivity|]).
    by apply elem_of_nil in Hin.
  - intros topic Htask Hsub. rewrite filter_app, fmap_app.
    unfold taskTopics, subscriptions in *. simpl in Htask, Hsub.
    rewrite !not_elem_of_cons in Htask. rewrite !not_elem_of_cons in Hsub.
    destruct Htask as (? & ? & ? & ? & _).
    destruct Hsub as (? & ? & ? & ? & ? & ? & _).
    match goal with
    | |- _ ++ (snd <$> filter ?P ?l) = _ => rewrite (filter_unmatched P l)
    end; [by rewrite fmap_nil, app_nil_r|].
    repeat (apply List.Forall_cons; [cbn [fst]; done|]). apply List.Forall_nil.
Qed.

(** A second orchestrator on the bus of the first: two listeners on
    [workflow:start] and on [task:billing], none on [workflow:completed]. *)
Lemma initialize_appends_listeners_witness :
  listenersOf "workflow:start" (initialize fresh σ1).2
  = [bound fresh startWorkflow_m; bound fresh startWorkflow_m]
  ∧ length (listenersOf "task:billing" (initialize fresh σ1).2) = 2
  ∧ listenersOf "workflow:completed" (initialize fresh σ1).2 = [].
Proof.
  destruct (initialize_appends_listeners fresh σ1) as (Hsub & Htask & Hother).
  split_and!.
  - rewrite (Hsub "workflow:start" startWorkflow_m); [reflexivity|].
    unfold subscriptions. repeat constructor.
  - rewrite (Htask "task:billing"); [reflexivity|].
    unfold taskTopics. simpl. repeat constructor.
  - rewrite (Hother "workflow:completed"); [reflexivity | |].
    + unfold taskTopics. simpl. rewrite !not_elem_of_cons.
      split_and!; try discriminate. apply not_elem_of_nil.
    + unfold subscriptions. simpl. rewrite !not_elem_of_cons.
      split_and!; try discriminate. apply not_elem_of_nil.
Defined.

(** ** What a dispatched task carries *)

(** X21. When [executeWorkflowStep] runs on a step of an active workflow
    whose dependencies are met and whose handler type is registered, the
    step is put in progress and exactly one event is published, on the
    topic of the step's handler type. Its task has a newly drawn
    identifier, the step's action as type, priority 1, no deadline, and
    as data the step's configuration in which [workflowId], [stepId] and
    [workflowData] are set to the workflow's identifier, the step's
    identifier and the workflow's data, overriding configuration entries
    of those names. *)
Theorem executeWorkflowStep_task o workflow i σ step agent :
  Workflow.steps workflow !! i = Some step →
  Workflow.status workflow = WorkflowStatus.active →
  dependenciesMetNow workflow step →
  agents o !! WorkflowStep.agentType step = Some agent →
  ∃ workflow' σ' task,
    executeWorkflowStep o workflow i σ = (workflow', σ')
    ∧ Workflow.steps workflow'
      = <[i := WorkflowStep.with_status WorkflowStepStatus.IN_PROGRESS step]>
          (Workflow.steps workflow)
    ∧ emitted σ'
      = emitted σ
        ++ [{| topic := "task:" +:+ AgentType.value (WorkflowStep.agentType step);
               payload := TaskPayload task;
               delivered :=
                 listenersOf
                   ("task:" +:+ AgentType.value (WorkflowStep.agentType step)) σ |}]
    ∧ AgentTask.id task = entropy σ (drawn σ)
    ∧ drawn σ' = S (drawn σ)
    ∧ AgentTask.type task = WorkflowStep.action step
    ∧ AgentTask.priority task = 1%Z
    ∧ AgentTask.deadline task = None
    ∧ AgentTask.data task !! "workflowId" = Some (VString (Workflow.id workflow))
    ∧ AgentTask.data task !! "stepId" = Some (VString (WorkflowStep.id step))
    ∧ AgentTask.data task !! "workflowData"
      = Some (VObject (Workflow.data workflow))
    ∧ ∀ k, k ≠ "workflowId" → k ≠ "stepId" → k ≠ "workflowData" →
           AgentTask.data task !! k = WorkflowStep.config step !! k.
Proof.
  intros Hi Hactive Hmet Hagent.
  rewrite (executeWorkflowStep_ready o workflow i σ step Hi Hactive Hmet), Hagent.
  eexists _, _, (buildTask workflow step (entropy σ (drawn σ)) (now σ)).
  split; [reflexivity|].
  unfold buildTask. cbn [AgentTask.data AgentTask.id AgentTask.type
                         AgentTask.priority AgentTask.deadline].
  split_and!; try done.
  - unfold Workflow.update_step. cbn [Workflow.steps Workflow.with_steps].
    apply list_eq. intros j. destruct (decide (i = j)) as [->|Hne].
    + rewrite list_lookup_alter_eq, Hi. simpl.
      by rewrite list_lookup_insert_eq by by eapply lookup_lt_Some.
    + by rewrite list_lookup_alter_ne, list_lookup_insert_ne.
  - rewrite !lookup_insert_ne by done. by rewrite lookup_insert_eq.
  - rewrite lookup_insert_ne by done. by rewrite lookup_insert_eq.
  - by rewrite lookup_insert_eq.
  - intros k ? ? ?. by rewrite !lookup_insert_ne by done.
Qed.

(** The first step of the created onboarding workflow. *)
Lemma executeWorkflowStep_task_witness :
  ∃ workflow workflow' σ' task,
    activeWorkflows created.1.2 !! "wf" = Some workflow
    ∧ executeWorkflowStep created.1.2 workflow 0 created.2 = (workflow', σ')
    ∧ AgentTask.id task = "uuid-4"
    ∧ payload <$> emittedSince created.2 σ' = [TaskPayload task]
    ∧ AgentTask.data task !! "stepId" = Some (VString "s1").
Proof.
  destruct (activeWorkflows created.1.2 !! "wf") as [w|] eqn:Hw;
    [|by vm_compute in Hw].
  pose proof Hw as Hw'. vm_compute in Hw'. injection Hw' as <-.
  match type of Hw with _ = Some ?w0 =>
    edestruct (λ step agent, executeWorkflowStep_task created.1.2 w0 0 created.2
                               step agent)
      as (w' & σ' & task & Hrun & _ & Hem & Hid & _ & _ & _ & _ & _ & Hstep & _)
  end; [reflexivity | reflexivity | reflexivity | vm_compute; reflexivity |].
  eexists _, w', σ', task. split_and!; [done | exact Hrun | exact Hid | |].
  - unfold emittedSince. by rewrite Hem, drop_app_length.
  - exact Hstep.
Defined.

(** ** Steps that share an identifier *)

(** X22. A result is written to the first step of the workflow that
    carries its step identifier and to no other step: every other step,
    also one with the same identifier, keeps the result it had. *)
Theorem result_goes_to_first_matching_step
    result o σ workflowId workflow i step :
  resolvesTo result o workflowId workflow i step →
  ∃ workflow',
    activeWorkflows (handleTaskResult result o σ).1.2 !! workflowId
    = Some workflow'
    ∧ (∀ j s, Workflow.steps workflow !! j = Some s → j < i →
              Some (WorkflowStep.id s) ≠ AgentResult.stepId result)
    ∧ (∃ s', Workflow.steps workflow' !! i = Some s'
             ∧ WorkflowStep.result s' = Some result)
    ∧ ∀ j s, Workflow.steps workflow !! j = Some s → j ≠ i →
        ∃ s', Workflow.steps workflow' !! j = Some s'
              ∧ WorkflowStep.result s' = WorkflowStep.result s.
Proof.
  intros Hres.
  rewrite (handleTaskResult_resolved _ _ _ _ _ _ _ Hres). cbn zeta.
  pose proof Hres as (_ & _ & Hsid & _ & _ & (Hi & _ & Hfirst)%list_find_Some).
  pose proof (fanOut_recorded o result step workflow σ i Hi) as Hstep.
  pose proof (fanOut_retouched o result step (recorded result i workflow) σ) as R.
  set (r := fanOut o result step (recorded result i workflow) σ) in *.
  assert (∀ j s, Workflow.steps workflow !! j = Some s → j ≠ i →
            ∃ s', Workflow.steps r.1 !! j = Some s'
                  ∧ WorkflowStep.result s' = WorkflowStep.result s) as Hothers.
  { intros j s Hj Hne. destruct R as [_ F].
    rewrite <- (recorded_other result i workflow j Hne) in Hj.
    destruct (Forall2_lookup_l _ _ _ _ _ F Hj) as (s' & Hj' & Hrel).
    exists s'. split; [done|]. by rewrite Hrel. }
  exists (if forallb settled (Workflow.steps r.1) then concluded r.2 r.1 else r.1).
  split_and!.
  - destruct (forallb settled (Workflow.steps r.1)); apply lookup_insert_eq.
  - intros j s Hj Hlt. rewrite Hsid. intros [= Hid]. by apply (Hfirst j s).
  - destruct (forallb settled (Workflow.steps r.1)); by eexists.
  - intros j s Hj Hne. destruct (Hothers j s Hj Hne) as (s' & ? & ?).
    destruct (forallb settled (Workflow.steps r.1)); by exists s'.
Qed.

(** Both steps of the started workflow are called [s1]; the result for
    [s1] lands on the first and leaves the second without a result. *)
Lemma result_goes_to_first_matching_step_witness :
  (WorkflowStep.id <$>
     default [] (Workflow.steps <$> activeWorkflows twinsStarted.1.2 !! "wf"))
  = ["s1"; "s1"]
  ∧ ∃ workflow' first second,
      activeWorkflows
        (handleTaskResult (resultFor "s1" true)
           twinsStarted.1.2 twinsStarted.2).1.2 !! "wf"
      = Some workflow'
      ∧ Workflow.steps workflow' !! 0 = Some first
      ∧ WorkflowStep.result first = Some (resultFor "s1" true)
      ∧ Workflow.steps workflow' !! 1 = Some second
      ∧ WorkflowStep.result second = None.
Proof.
  split; [vm_compute; reflexivity|].
  edestruct (λ w, result_goes_to_first_matching_step
                    (resultFor "s1" true) twinsStarted.1.2 twinsStarted.2
                    "wf" w 0 runningStep)
    as (w' & Hw' & _ & (first & Hfirst & Hres) & Hothers).
  { unfold resolvesTo.
    split_and!; [reflexivity | discriminate | reflexivity | discriminate
                | vm_compute; reflexivity | vm_compute; reflexivity]. }
  edestruct (Hothers 1) as (second & Hsecond & Hkept);
    [vm_compute; reflexivity | discriminate |].
  exists w', first, second. split_and!; [done..|].
  rewrite Hkept. reflexivity.
Defined.
